(** * Retrieval fusion, fuzzy field matching and session pagination

    A shallow embedding of the core of the neuroscience dataset assistant:
    - [backend/ks_search_tool.py]: [fuzzy_match], [find_best_matches],
      [search_across_all_fields], [global_fuzzy_keyword_search] and the
      filters that [_perform_search] builds;
    - [backend/agents.py]: [_is_more_query], the cleaning of the keywords and
      intents that the language model returns, the two search agents,
      [fuse_results], the graph nodes and [NeuroscienceAssistant.handle_chat];
    - [backend/retrieval.py]: [Retriever.search].

    Python dictionaries with well-known keys are records; the insertion-ordered
    dictionary [combined] of [fuse_results] is an association list; the two
    dictionaries of the assistant are [gmap]s keyed by session id.  Relevance
    scores are binary64 floats ([PrimFloat]), as in Python.  The similarity
    ratio of the matcher is the quotient of two integers and is kept exact,
    in [Q], with rational thresholds.  Counts and page numbers are natural
    numbers.  Strings are byte strings; the case and whitespace functions are
    the ASCII part of Python's.  The language model, the HTTP searches and the
    vector index are parameters of the sections that use them. *)

From Stdlib Require Import Ascii String PrimFloat QArith.
From Stdlib Require FloatAxioms.
From stdpp Require Import gmap strings list pretty sorting.
Set Warnings "-inexact-float,-clear-no-such-hyp,-abstract-large-number".

Local Open Scope string_scope.
Local Open Scope list_scope.
Local Open Scope nat_scope.

(** ** Python string helpers (ASCII) *)

Module PyStr.

Definition is_upper (c : ascii) : bool :=
  let n := nat_of_ascii c in (65 <=? n) && (n <=? 90).

Definition lower_char (c : ascii) : ascii :=
  if is_upper c then ascii_of_nat (nat_of_ascii c + 32) else c.

(** [str.lower()] *)
Fixpoint lower (s : string) : string :=
  match s with
  | EmptyString => EmptyString
  | String c s' => String (lower_char c) (lower s')
  end.

(** The characters [str.strip()] removes and [\s] matches, below 128:
    tab, newline, vertical tab, form feed, carriage return, the four
    separators 0x1c-0x1f and the space. *)
Definition is_space (c : ascii) : bool :=
  let n := nat_of_ascii c in
  ((9 <=? n) && (n <=? 13)) || ((28 <=? n) && (n <=? 32)).

Definition is_digit (c : ascii) : bool :=
  let n := nat_of_ascii c in (48 <=? n) && (n <=? 57).

(** [\w] below 128: letters, digits and the underscore. *)
Definition is_word (c : ascii) : bool :=
  let n := nat_of_ascii c in
  is_digit c || is_upper c || ((97 <=? n) && (n <=? 122)) || (n =? 95).

Fixpoint lstrip (s : string) : string :=
  match s with
  | String c s' => if is_space c then lstrip s' else s
  | EmptyString => EmptyString
  end.

Fixpoint rstrip (s : string) : string :=
  match s with
  | EmptyString => EmptyString
  | String c s' =>
      match rstrip s' with
      | EmptyString => if is_space c then EmptyString else String c EmptyString
      | r => String c r
      end
  end.

(** [str.strip()] *)
Definition strip (s : string) : string := rstrip (lstrip s).

(** [s[-n:]] for [n > 0]: the last [n] characters, all of [s] when shorter. *)
Definition last_n (n : nat) (s : string) : string :=
  string_of_list_ascii
    (drop (length (list_ascii_of_string s) - n) (list_ascii_of_string s)).

(** [bool(s)] for a string *)
Definition truthy (s : string) : bool :=
  match s with EmptyString => false | _ => true end.

End PyStr.

(** ** [difflib.SequenceMatcher(None, a, b).ratio()]

    The matcher is Python's library class, not code of this repository; the
    model follows its documented algorithm for second sequences shorter than
    200 elements, where the automatic junk heuristic is off.
    [find_longest_match] returns the longest block common to [a] and [b]; of
    all maximal blocks the one that starts earliest in [a], and of those the
    one that starts earliest in [b].  [get_matching_blocks] applies it
    recursively to the pieces left and right of the block, and [ratio] is
    [2.0 * M / T] for [M] matched elements and [T = len(a) + len(b)], or [1.0]
    when [T = 0].  The quotient is kept exact, as a rational. *)

Module Difflib.
Section Seq.
Context {A : Type} `{EqDecision A}.

Fixpoint common_prefix (a b : list A) : nat :=
  match a, b with
  | x :: a', y :: b' => if decide (x = y) then S (common_prefix a' b') else 0
  | _, _ => 0
  end.

(** Candidate blocks that start at [a[i]], for every start [j] in [b]; a
    block replaces the best so far only when strictly longer. *)
Fixpoint scan_b (a b : list A) (i j : nat) (best : nat * nat * nat)
  : nat * nat * nat :=
  match b with
  | [] => best
  | _ :: b' =>
      let k := common_prefix a b in
      scan_b a b' i (S j) (if best.2 <? k then (i, j, k) else best)
  end.

Fixpoint scan_a (a b : list A) (i : nat) (best : nat * nat * nat)
  : nat * nat * nat :=
  match a with
  | [] => best
  | _ :: a' => scan_a a' b (S i) (scan_b a b i 0 best)
  end.

(** [(i, j, k)]: the block [a[i:i+k] == b[j:j+k]]; [(0, 0, 0)] when the
    sequences share no element. *)
Definition find_longest_match (a b : list A) : nat * nat * nat :=
  scan_a a b 0 (0, 0, 0).

(** The number of matched elements, by recursion on the pieces; the fuel
    bounds the depth, and [length a] is always enough. *)
Fixpoint matches_fuel (n : nat) (a b : list A) : nat :=
  match n with
  | 0 => 0
  | S n' =>
      let '(i, j, k) := find_longest_match a b in
      if k =? 0 then 0
      else matches_fuel n' (take i a) (take j b) + k
           + matches_fuel n' (drop (i + k) a) (drop (j + k) b)
  end.

Definition matches (a b : list A) : nat := matches_fuel (length a) a b.

Definition ratio (a b : list A) : Q :=
  let t := length a + length b in
  if t =? 0 then 1%Q
  else Qmake (Z.of_nat (2 * matches a b)) (Pos.of_nat t).

End Seq.
End Difflib.

(** ** Fuzzy field matcher ([ks_search_tool.py]) *)

(** [SequenceMatcher(None, query.lower(), target.lower()).ratio()] *)
Definition similarity_ratio (query target : string) : Q :=
  Difflib.ratio (list_ascii_of_string (PyStr.lower query))
                (list_ascii_of_string (PyStr.lower target)).

Definition default_threshold : Q := 8 # 10.

Definition fuzzy_match (query target : string) (threshold : Q) : bool :=
  if negb (PyStr.truthy query) || negb (PyStr.truthy target) then false
  else Qle_bool threshold (similarity_ratio query target).

(** [sorted(l, key=key, reverse=True)] and [l.sort(key=key, reverse=True)]:
    a stable sort into descending key order; elements with equal keys keep
    their original order.  [ltb] is the comparison [<] of the keys. *)
Section SortReverse.
Context {A K : Type} (key : A → K) (ltb : K → K → bool).

Fixpoint insert_desc (x : A) (l : list A) : list A :=
  match l with
  | [] => [x]
  | y :: l' => if ltb (key x) (key y) then y :: insert_desc x l' else x :: l
  end.

Definition sort_reverse (l : list A) : list A := foldr insert_desc [] l.
End SortReverse.

Definition Qltb (p q : Q) : bool := negb (Qle_bool q p).

(** The list [matches] of [find_best_matches] before it is sorted: the
    candidates that match, each with its ratio. *)
Definition scored_matches (query : string) (candidates : list string)
    (threshold : Q) : list (string * Q) :=
  omap (λ candidate,
          if fuzzy_match query candidate threshold
          then Some (candidate, similarity_ratio query candidate)
          else None) candidates.

Definition find_best_matches (query : string) (candidates : list string)
    (threshold : Q) (max_matches : nat) : list string :=
  let matches := sort_reverse snd Qltb (scored_matches query candidates threshold) in
  fst <$> take max_matches matches.

(** ** Search hits

    One search hit is a Python dictionary.  The keys the code reads are
    record fields: [None] stands for a key that is absent (or, for the two id
    keys, present with the value [None]); ids are strings and scores are
    floats.  [get_extra] holds every other key with the JSON text of its
    value; a key ["final_score"] of an incoming hit is always overwritten by
    the fusion and is not kept. *)

Record hit := Hit {
  get_id : option string;         (* "id" *)
  get__id : option string;        (* "_id" *)
  get_similarity : option float;  (* "similarity" *)
  get__score : option float;      (* "_score" *)
  get_extra : gmap string string;
}.

(** An element of a result list: a dictionary or any other object. *)
Inductive pyobj :=
| PDict (res : hit)
| POther.

(** A string field when it is truthy: present, not [None] and not empty. *)
Definition truthy_field (x : option string) : option string :=
  match x with
  | Some s => if PyStr.truthy s then Some s else None
  | None => None
  end.

(** The value of [x or y] when it is truthy, [None] when both fields are
    falsy (so that a further [or] or [if] falls through). *)
Definition py_or (x y : option string) : option string :=
  match truthy_field x with
  | Some s => Some s
  | None => truthy_field y
  end.

(** ** Fuzzy keyword search over the data source configurations *)

(** One entry of [available_filters]: the backend field path and the known
    values of the field. *)
Record field_config := FieldConfig {
  field : string;
  values : list string;
}.

(** [datasources_config.json]: data source id to its [available_filters],
    both in file order. *)
Definition all_configs_t : Type := list (string * list (string * field_config)).

Section Search.

(** [_perform_search(datasource_id, query, {field_name: value}, all_configs)]:
    the HTTP query against one data source; [None] when it raises. *)
Variable _perform_search :
  string → string → string * string → all_configs_t → option (list hit).

Definition search_one_field (query : string) (all_configs : all_configs_t)
    (threshold : Q) (datasource_id : string)
    (entry : string * field_config) : list hit :=
  let '(field_name, field_cfg) := entry in
  match find_best_matches query (values field_cfg) threshold 5 with
  | [] => []
  | top :: _ =>
      match _perform_search datasource_id query (field_name, top) all_configs with
      | Some search_results => search_results
      | None => []
      end
  end.

Definition search_across_all_fields (query : string)
    (all_configs : all_configs_t) (threshold : Q) : list hit :=
  mjoin ((λ '(datasource_id, available_filters),
            mjoin (search_one_field query all_configs threshold datasource_id
                     <$> available_filters))
         <$> all_configs).

(** [rid = r.get("_id") or r.get("id")], when truthy *)
Definition result_id (r : hit) : option string := py_or (get__id r) (get_id r).

(** The inner loop of [global_fuzzy_keyword_search]: keep a result when its
    id is truthy and new. *)
Definition add_unique (acc : list hit * gset string) (r : hit)
    : list hit * gset string :=
  let '(out, seen) := acc in
  match result_id r with
  | Some rid => if decide (rid ∈ seen) then acc else ((out ++ [r])%list, {[rid]} ∪ seen)
  | None => acc
  end.

(** The loop over the keywords: empty keywords are skipped, and the loop
    stops after the first keyword that fills the pool. *)
Fixpoint keyword_loop (all_configs : all_configs_t) (top_k : nat)
    (keywords : list string) (acc : list hit * gset string) : list hit :=
  match keywords with
  | [] => acc.1
  | kw :: rest =>
      if PyStr.truthy kw then
        let acc' := foldl add_unique acc
                      (search_across_all_fields kw all_configs default_threshold) in
        if top_k <=? length acc'.1 then acc'.1
        else keyword_loop all_configs top_k rest acc'
      else keyword_loop all_configs top_k rest acc
  end.

(** [config] is the parsed configuration file, [None] when it does not
    exist. *)
Definition global_fuzzy_keyword_search (config : option all_configs_t)
    (keywords : list string) (top_k : nat) : list hit :=
  match config with
  | None => []
  | Some all_configs => take top_k (keyword_loop all_configs top_k keywords ([], ∅))
  end.

End Search.

(** ** Result fusion ([agents.py], [fuse_results]) *)

(** A value of [combined]: [{**res, "final_score": s}]. *)
Record fused := Fused {
  doc : hit;
  final_score : float;
}.

(** An insertion-ordered dictionary with string keys: assignment to a key
    that is present replaces the value in place, a new key goes last. *)
Section Dict.
Context {V : Type}.

Fixpoint dict_get (k : string) (d : list (string * V)) : option V :=
  match d with
  | [] => None
  | (k', v) :: d' => if decide (k = k') then Some v else dict_get k d'
  end.

Fixpoint dict_set (k : string) (v : V) (d : list (string * V))
  : list (string * V) :=
  match d with
  | [] => [(k, v)]
  | (k', v') :: d' =>
      if decide (k = k') then (k, v) :: d' else (k', v') :: dict_set k v d'
  end.

End Dict.

Definition dict_t : Type := list (string * fused).

Definition VECTOR_WEIGHT : float := 0.6%float.
Definition KS_WEIGHT : float := 0.4%float.

(** [res.get("id") or res.get("_id") or f"vec_{len(combined)}"] *)
Definition vector_doc_id (combined : dict_t) (res : hit) : string :=
  default ("vec_" +:+ pretty (length combined)) (py_or (get_id res) (get__id res)).

(** [res.get("_id") or res.get("id") or f"ks_{len(combined)}"] *)
Definition ks_doc_id (combined : dict_t) (res : hit) : string :=
  default ("ks_" +:+ pretty (length combined)) (py_or (get__id res) (get_id res)).

(** [res.get("similarity", 0) * 0.6] and [res.get("_score", 0) * 0.4] *)
Definition vector_contribution (res : hit) : float :=
  (default 0 (get_similarity res) * VECTOR_WEIGHT)%float.

Definition ks_contribution (res : hit) : float :=
  (default 0 (get__score res) * KS_WEIGHT)%float.

(** The body of the first loop. *)
Definition add_vector (combined : dict_t) (o : pyobj) : dict_t :=
  match o with
  | PDict res =>
      dict_set (vector_doc_id combined res) (Fused res (vector_contribution res))
        combined
  | POther => combined
  end.

(** The body of the second loop. *)
Definition add_ks (combined : dict_t) (o : pyobj) : dict_t :=
  match o with
  | PDict res =>
      let doc_id := ks_doc_id combined res in
      match dict_get doc_id combined with
      | Some old =>
          dict_set doc_id
            (Fused (doc old) (final_score old + ks_contribution res)%float)
            combined
      | None => dict_set doc_id (Fused res (ks_contribution res)) combined
      end
  | POther => combined
  end.

Definition combined_dict (ks_results vector_results : list pyobj) : dict_t :=
  foldl add_ks (foldl add_vector [] vector_results) ks_results.

Definition PAGE_SIZE : nat := 15.

(** [all_sorted] and [all_sorted[:page_size]] *)
Definition all_sorted (ks_results vector_results : list pyobj) : list fused :=
  sort_reverse final_score PrimFloat.ltb (combined_dict ks_results vector_results).*2.

(** The fused records still paired with their keys of [combined], in the
    order of [all_sorted]. *)
Definition all_sorted_items (ks_results vector_results : list pyobj) : dict_t :=
  sort_reverse (final_score ∘ snd) PrimFloat.ltb (combined_dict ks_results vector_results).

(** The ids that the two loops compute, in processing order, from the
    dictionary [combined] they start with. *)
Fixpoint vector_doc_ids (combined : dict_t) (vector_results : list pyobj)
  : list (string * hit) :=
  match vector_results with
  | [] => []
  | o :: rest =>
      match o with
      | PDict res => [(vector_doc_id combined res, res)]
      | POther => []
      end ++ vector_doc_ids (add_vector combined o) rest
  end%list.

Fixpoint ks_doc_ids (combined : dict_t) (ks_results : list pyobj)
  : list (string * hit) :=
  match ks_results with
  | [] => []
  | o :: rest =>
      match o with
      | PDict res => [(ks_doc_id combined res, res)]
      | POther => []
      end ++ ks_doc_ids (add_ks combined o) rest
  end%list.

(** ** The agent state and the graph nodes *)

Record AgentState := MkAgentState {
  session_id : string;
  query : string;
  history : list string;
  keywords : list string;
  effective_query : string;
  intents : list string;
  ks_results : list pyobj;
  vector_results : list pyobj;
  final_results : list fused;
  all_results : list fused;
  start_number : nat;      (* "__start_number__" *)
  previous_text : string;  (* "__previous_text__" *)
  final_response : string;
}.

Definition fuse_results (state : AgentState) : AgentState :=
  let all := all_sorted (ks_results state) (vector_results state) in
  MkAgentState (session_id state) (query state) (history state)
    (keywords state) (effective_query state) (intents state)
    (ks_results state) (vector_results state)
    (take PAGE_SIZE all) all
    (start_number state) (previous_text state) (final_response state).

(** ** Continuation requests ([_is_more_query]) *)

Definition CONTINUE_PHRASES : list string :=
  ["more"; "next"; "continue"; "more please"; "show more"; "keep going"].

(** [s] without its prefix [p], when it has it. *)
Fixpoint strip_prefix (p s : string) : option string :=
  match p, s with
  | EmptyString, _ => Some s
  | String c p', String d s' => if decide (c = d) then strip_prefix p' s' else None
  | String _ _, EmptyString => None
  end.

(** The leading decimal digits of [s], read as a number, their count and
    what follows them. *)
Fixpoint read_digits (s : string) (value count : nat) : nat * nat * string :=
  match s with
  | String c s' =>
      if PyStr.is_digit c
      then read_digits s' (10 * value + (nat_of_ascii c - 48)) (S count)
      else (value, count, s)
  | EmptyString => (value, count, s)
  end.

(** [re.match(r"^(?:next|more|show)\s+(\d{1,3})\b", t)], giving
    [int(m.group(1))].  After the keyword come one or more blanks and then a
    run of digits; the word boundary makes the match fail when the run is
    longer than three digits or is followed by a letter or an underscore. *)
Definition match_more (t : string) : option nat :=
  match strip_prefix "next" t ∪ strip_prefix "more" t ∪ strip_prefix "show" t with
  | Some (String c rest) =>
      if PyStr.is_space c then
        let '(value, count, after) := read_digits (PyStr.lstrip rest) 0 0 in
        if (1 <=? count) && (count <=? 3)
           && match after with
              | String d _ => negb (PyStr.is_word d)
              | EmptyString => true
              end
        then Some value else None
      else None
  | _ => None
  end.

Definition _is_more_query (text : string) : option nat :=
  let t := PyStr.lower (PyStr.strip text) in
  if negb (PyStr.truthy t) then None
  else if decide (t ∈ CONTINUE_PHRASES) then None
  else match_more t.

(** The test that opens the continuation branch of [handle_chat]. *)
Definition is_continuation (query : string) : bool :=
  bool_decide (is_Some (_is_more_query query))
  || bool_decide (PyStr.lower (PyStr.strip query) ∈ CONTINUE_PHRASES).

(** ** Calls to the collaborators

    The language model, the catalogue search and the vector index are outside
    the engine.  A computation returns its result, or the message of the
    exception it raised, together with the calls it made, in order. *)

Inductive call :=
| CallDetectIntents (q : string) (hist : list string)
| CallRewrite (q : string) (hist : list string)
| CallKeywords (q : string)
| CallGeneralSearch (q : string) (top_k : nat)
| CallFuzzySearch (kws : list string) (top_k : nat)
| CallVectorSearch (q : string) (top_k : nat)
| CallSynthesis (q : string) (search_results : list fused)
    (its : list string) (start : nat) (prev : string).

Inductive outcome (A : Type) :=
| Ok (a : A)
| Raise (msg : string).
Arguments Ok {A} a.
Arguments Raise {A} msg.

Definition M (A : Type) : Type := list call * outcome A.

#[export] Instance M_ret : MRet M := λ A a, ([], Ok a).

#[export] Instance M_bind : MBind M := λ A B f m,
  match m with
  | (log, Ok a) => let '(log', r) := f a in ((log ++ log')%list, r)
  | (log, Raise msg) => (log, Raise msg)
  end.

(** One call to a collaborator and its result. *)
Definition perform {A : Type} (c : call) (r : outcome A) : M A := ([c], r).

Definition GREETING : string := "greeting".
Definition DATA_DISCOVERY : string := "data_discovery".

(** [set(intents) == {"greeting"}] *)
Definition only_greeting (its : list string) : bool :=
  match its with
  | [] => false
  | _ => forallb (λ i, bool_decide (i = GREETING)) its
  end.

Definition nl : string := String (ascii_of_nat 10) EmptyString.

Definition GREETING_RESPONSE : string :=
  "Hey! I can help you find neuroscience datasets." +:+ nl +:+ nl +:+
  "Try examples:" +:+ nl +:+
  "- rat electrophysiology in hippocampus" +:+ nl +:+
  "- human EEG visual stimulus, BIDS format" +:+ nl +:+
  "- fMRI datasets with CC0 or PDDL license" +:+ nl +:+
  "- datasets from EBRAINS about DWI" +:+ nl.

Definition NO_EARLIER_RESULTS : string :=
  "There are no earlier results to continue. Ask me for a dataset (e.g., 'human EEG BIDS').".

Definition END_OF_RESULTS : string :=
  "You’ve reached the end of the results. Try refining the query.".

(** The stored dictionary of one session. *)
Record session := MkSession {
  mem_all_results : list fused;
  mem_page : nat;
  mem_page_size : nat;
  mem_effective_query : string;
  mem_keywords : list string;
  mem_intents : list string;
  mem_last_text : string;
}.

Record assistant := MkAssistant {
  chat_history : gmap string (list string);
  session_memory : gmap string session;
}.

(** The rolling text history keeps the last 12000 characters. *)
Definition HISTORY_CHARS : nat := 12 * 1000.

(** [l[-n:]] for [n > 0] *)
Definition last_items {A : Type} (n : nat) (l : list A) : list A :=
  drop (length l - n) l.

Definition reset_session (self : assistant) (sid : string) : assistant :=
  MkAssistant (delete sid (chat_history self)) (delete sid (session_memory self)).

(** [if session_id not in self.chat_history: self.chat_history[session_id] = []] *)
Definition ensure_history (self : assistant) (sid : string) : assistant :=
  match chat_history self !! sid with
  | Some _ => self
  | None => MkAssistant (<[sid := []]> (chat_history self)) (session_memory self)
  end.

(** [more_count or mem.get("page_size", 15)]: the count of the request
    unless it is absent or 0. *)
Definition resolve_page_size (more_count : option nat) (mem : option session) : nat :=
  match more_count with
  | Some (S n) => S n
  | _ => from_option mem_page_size 15 mem
  end.

(** The slice [all_results[start:start + page_size]] that a continuation
    request serves, with [start = (page - 1) * page_size] for the incremented
    page number. *)
Definition next_start (more_count : option nat) (mem : option session) : nat :=
  (from_option mem_page 1 mem + 1 - 1) * resolve_page_size more_count mem.

Definition next_batch (more_count : option nat) (mem : option session) : list fused :=
  take (resolve_page_size more_count mem)
       (drop (next_start more_count mem) (from_option mem_all_results [] mem)).

(** [chat_history[sid].extend([...])] and the cut to the last 20 entries *)
Definition record_turn (hist : gmap string (list string)) (sid q text : string)
  : gmap string (list string) :=
  let turns := (default [] (hist !! sid) ++ ["User: " +:+ q; "Assistant: " +:+ text])%list in
  <[sid := if 20 <? length turns then last_items 20 turns else turns]> hist.

Section Assistant.

(** The language model calls: intents, rewrite, keywords, synthesis. *)
Variable call_gemini_detect_intents : string → list string → outcome (list string).
Variable call_gemini_rewrite_with_history : string → list string → outcome string.
Variable call_gemini_for_keywords : string → outcome (list string).
Variable call_gemini_for_final_synthesis :
  string → list fused → list string → nat → string → outcome string.

(** [general_search(query, top_k, enrich_details=True)["combined_results"]],
    [None] when it raises; [_perform_search] and the configuration file as
    above; [VectorSearchAgent().run(query, want)], which catches its own
    exceptions. *)
Variable general_search : string → nat → option (list hit).
Variable _perform_search :
  string → string → string * string → all_configs_t → option (list hit).
Variable datasources_config : option all_configs_t.
Variable vector_search : string → nat → list pyobj.

(** [KSSearchAgent.run] *)
Definition ks_agent_run (q : string) (kws : list string) (want : nat)
  : M (list hit) :=
  general ← perform (CallGeneralSearch q (want `min` 50))
               (Ok (default [] (general_search q (want `min` 50))));
  fuzzy ← perform (CallFuzzySearch kws (want `min` 50))
             (Ok (global_fuzzy_keyword_search _perform_search
                    datasources_config kws (want `min` 50)));
  mret (take (want `max` 15) (general ++ fuzzy)%list).

Definition with_prepared (state : AgentState) (effective : string)
    (kws its : list string) : AgentState :=
  MkAgentState (session_id state) (query state) (history state)
    kws effective its
    (ks_results state) (vector_results state)
    (final_results state) (all_results state)
    (start_number state) (previous_text state) (final_response state).

Definition with_search (state : AgentState) (ks vec : list pyobj) : AgentState :=
  MkAgentState (session_id state) (query state) (history state)
    (keywords state) (effective_query state) (intents state)
    ks vec
    (final_results state) (all_results state)
    (start_number state) (previous_text state) (final_response state).

Definition with_response (state : AgentState) (response : string) : AgentState :=
  MkAgentState (session_id state) (query state) (history state)
    (keywords state) (effective_query state) (intents state)
    (ks_results state) (vector_results state)
    (final_results state) (all_results state)
    (start_number state) (previous_text state) response.

Definition extract_keywords_and_rewrite (state : AgentState) : M AgentState :=
  intents0 ← perform (CallDetectIntents (query state) (history state))
               (call_gemini_detect_intents (query state) (history state));
  if decide (intents0 = [GREETING]) then
    mret (with_prepared state (query state) [] intents0)
  else
    effective ← perform (CallRewrite (query state) (history state))
                  (call_gemini_rewrite_with_history (query state) (history state));
    kws ← perform (CallKeywords effective) (call_gemini_for_keywords effective);
    its ← perform (CallDetectIntents effective (history state))
            (call_gemini_detect_intents effective (history state));
    mret (with_prepared state effective kws its).

Definition execute_search (state : AgentState) : M AgentState :=
  if only_greeting (intents state) then mret (with_search state [] [])
  else
    let want_pool := 60 in
    all_ks_results ← ks_agent_run (effective_query state) (keywords state) want_pool;
    vec_results ← perform (CallVectorSearch (effective_query state) want_pool)
                    (Ok (vector_search (effective_query state) want_pool));
    mret (with_search state (PDict <$> all_ks_results) vec_results).

Definition generate_final_response (state : AgentState) : M AgentState :=
  if only_greeting (intents state) then
    mret (with_response state GREETING_RESPONSE)
  else
    response ← perform
                 (CallSynthesis (effective_query state) (final_results state)
                    (intents state) (start_number state) (previous_text state))
                 (call_gemini_for_final_synthesis (effective_query state)
                    (final_results state) (intents state) (start_number state)
                    (previous_text state));
    mret (with_response state response).

(** The compiled graph: prepare, search, fusion, generate_response. *)
Definition graph_invoke (initial_state : AgentState) : M AgentState :=
  prepared ← extract_keywords_and_rewrite initial_state;
  searched ← execute_search prepared;
  generate_final_response (fuse_results searched).

(** The continuation branch of [handle_chat], entered with the stored
    dictionary [mem] of the session (or none). *)
Definition continue_session (self : assistant) (sid q : string)
    (more_count : option nat) (mem : option session)
  : string * assistant * list call :=
  let stored := from_option mem_all_results [] mem in
  match stored with
  | [] => (NO_EARLIER_RESULTS, self, [])
  | _ =>
      let page_size := resolve_page_size more_count mem in
      let page := from_option mem_page 1 mem + 1 in
      let start := next_start more_count mem in
      let batch := next_batch more_count mem in
      match batch with
      | [] => (END_OF_RESULTS, self, [])
      | _ =>
          let its := from_option mem_intents [DATA_DISCOVERY] mem in
          let effective := from_option mem_effective_query EmptyString mem in
          let prev_text := from_option mem_last_text EmptyString mem in
          let c := CallSynthesis effective batch its (start + 1) prev_text in
          match call_gemini_for_final_synthesis effective batch its (start + 1) prev_text with
          | Raise msg => ("Error: " +:+ msg, self, [c])
          | Ok text =>
              let mem' :=
                MkSession stored page page_size effective
                  (from_option mem_keywords [] mem) its
                  (PyStr.last_n HISTORY_CHARS (prev_text +:+ nl +:+ nl +:+ text)) in
              (text,
               MkAssistant (record_turn (chat_history self) sid q text)
                           (<[sid := mem']> (session_memory self)),
               [c])
          end
      end
  end.

(** The state a new query starts the graph with. *)
Definition initial_state (self : assistant) (sid q : string) : AgentState :=
  MkAgentState sid q (last_items 10 (default [] (chat_history self !! sid)))
    [] EmptyString [] [] [] [] [] 1 EmptyString EmptyString.

(** The branch of a new query: run the graph and store a fresh session. *)
Definition new_query (self : assistant) (sid q : string)
  : string * assistant * list call :=
  match graph_invoke (initial_state self sid q) with
  | (log, Raise msg) => ("Error: " +:+ msg, self, log)
  | (log, Ok final_state) =>
      let response_text := final_response final_state in
      let mem :=
        MkSession (all_results final_state) 1 15 (effective_query final_state)
          (keywords final_state) (intents final_state) response_text in
      (response_text,
       MkAssistant (record_turn (chat_history self) sid q response_text)
                   (<[sid := mem]> (session_memory self)),
       log)
  end.

(** [handle_chat]: the reply, the assistant afterwards and the calls made. *)
Definition handle_chat (self : assistant) (sid q : string) (reset : bool)
  : string * assistant * list call :=
  let self1 := if reset then reset_session self sid else self in
  let self2 := ensure_history self1 sid in
  let more_count := _is_more_query q in
  let mem := session_memory self2 !! sid in
  if is_continuation q then continue_session self2 sid q more_count mem
  else new_query self2 sid q.

End Assistant.

(** * Definitions used in the statements *)

(** ** Orders, invariants and traces *)

(** Descending key order, the order of [sort_reverse]. *)
Definition desc {A K : Type} (key : A → K) (ltb : K → K → bool) (x y : A) : Prop :=
  ltb (key x) (key y) = false.

#[local] Instance Qeq_decision (p q : Q) : Decision (p == q)%Q := Qeq_dec p q.

(** The strings of ASCII characters only.  On these [str.lower] is
    [PyStr.lower]: it folds the letters A to Z and nothing else. *)
Definition ascii_only (s : string) : bool :=
  forallb (λ c, nat_of_ascii c <? 128) (list_ascii_of_string s).

(** A block [(i, j, k)] that fits in sequences of lengths [la] and [lb]. *)
Definition fits (la lb : nat) (best : nat * nat * nat) : Prop :=
  best.1.1 + best.2 ≤ la ∧ best.1.2 + best.2 ≤ lb.

(** What the loops of [global_fuzzy_keyword_search] maintain: every kept
    result has a truthy id, recorded in [seen], and no id is kept twice. *)
Definition pool_ok (acc : list hit * gset string) : Prop :=
  Forall (λ r, ∃ rid, result_id r = Some rid ∧ rid ∈ acc.2) acc.1 ∧
  NoDup (result_id <$> acc.1).

(** ** Example data *)

(** The result of one field search: a hit without id, two hits with the id
    [a] and a hit whose id is the empty string; and a configuration with one
    data source and one field. *)
Definition example_hits : list hit :=
  [ Hit None None None (Some 1%float) ∅;
    Hit None (Some "a") None (Some 1%float) ∅;
    Hit (Some "a") None None (Some 2%float) ∅;
    Hit (Some EmptyString) (Some EmptyString) None (Some 3%float) ∅ ].

Definition example_config : all_configs_t :=
  [("scr_017571_dandi", [("species", FieldConfig "species.keyword" ["mouse"; "rat"])])].

(** The hits that were given the id [doc_id], in processing order. *)
Definition hits_with_id (doc_id : string) (ids : list (string * hit)) : list hit :=
  (filter (λ p, p.1 = doc_id) ids).*2.

(** [s] after the [+=] of each hit of [hs], in order. *)
Definition add_contributions (s : float) (hs : list hit) : float :=
  foldl (λ acc r, (acc + ks_contribution r)%float) s hs.

(** The score of the record stored under [doc_id]: the weighted similarity
    of the last vector hit with that id, if any, then the weighted relevance
    of every lexical hit with that id, added in order. *)
Definition weighted_sum (doc_id : string) (vec_ids ks_ids : list (string * hit))
  : option float :=
  match last (hits_with_id doc_id vec_ids), hits_with_id doc_id ks_ids with
  | Some v, ks => Some (add_contributions (vector_contribution v) ks)
  | None, k :: ks => Some (add_contributions (ks_contribution k) ks)
  | None, [] => None
  end.

(** The hit whose fields the record stored under [doc_id] carries. *)
Definition payload_source (doc_id : string) (vec_ids ks_ids : list (string * hit))
  : option hit :=
  match last (hits_with_id doc_id vec_ids) with
  | Some v => Some v
  | None => head (hits_with_id doc_id ks_ids)
  end.

(** One vector hit and one lexical hit with the
    same id, and two hits without scores. *)
Definition vector_hit_a : hit := Hit (Some "a") None (Some 0.9%float) None ∅.
Definition ks_hit_a : hit := Hit None (Some "a") None (Some 1.0%float) ∅.
Definition vector_hit_unscored : hit := Hit (Some "c") None None None ∅.
Definition ks_hit_unscored : hit := Hit None (Some "b") None None ∅.

(** ** The specification's formulas

    These three definitions follow the words of the specification, not the
    code; the code is compared with them. *)

(** The composite score in the words of the specification: the sum, over the
    backends that produced the id, of the backend's weight times its native
    score. *)
Definition spec_composite_score (vector_score lexical_score : option float) : float :=
  match vector_score, lexical_score with
  | Some v, Some k => (v * 0.6 + k * 0.4)%float
  | Some v, None => (v * 0.6)%float
  | None, Some k => (k * 0.4)%float
  | None, None => 0%float
  end.

(** The payload in the words of the specification: the union of the fields
    of both hits, the lexical value winning on a key that both have. *)
Definition spec_merged_payload (lexical vector : hit) : hit :=
  Hit (get_id lexical ∪ get_id vector)
      (get__id lexical ∪ get__id vector)
      (get_similarity lexical ∪ get_similarity vector)
      (get__score lexical ∪ get__score vector)
      (get_extra lexical ∪ get_extra vector).

(** The id in the words of the specification: the source kind and the
    position of the hit in its own batch. *)
Definition spec_fallback_id (kind : string) (ordinal : nat) : string :=
  kind +:+ "_" +:+ pretty ordinal.

(** More example data: hits with a payload, with and without ids. *)
Definition vector_hit_titled : hit :=
  Hit (Some "a") None (Some 0.9%float) None {[ "title" := "from the vector index" ]}.
Definition ks_hit_titled : hit :=
  Hit None (Some "a") None (Some 1.0%float)
      {[ "title" := "from the catalogue"; "description" := "enriched" ]}.

Definition hit_without_id : hit := Hit None None (Some 0.5%float) (Some 1.0%float) ∅.
Definition hit_with_id (i : string) : hit := Hit (Some i) None None None ∅.

(** Collaborators for the examples: the language model echoes the query and
    finds no keywords, the catalogue finds nothing, and the vector index
    returns [n] hits with the ids 0 to n-1. *)
Definition stub_detect_intents : string → list string → outcome (list string) :=
  λ _ _, Ok [DATA_DISCOVERY].
Definition stub_rewrite : string → list string → outcome string := λ q _, Ok q.
Definition stub_keywords : string → outcome (list string) := λ _, Ok [].
Definition stub_synthesis
  : string → list fused → list string → nat → string → outcome string :=
  λ _ _ _ start _, Ok ("datasets from " +:+ pretty start).
Definition stub_general_search : string → nat → option (list hit) := λ _ _, Some [].
Definition stub_perform_search
  : string → string → string * string → all_configs_t → option (list hit) :=
  λ _ _ _ _, None.
Definition stub_vector_search (n : nat) : string → nat → list pyobj :=
  λ _ _, (λ i, PDict (Hit (Some (pretty i)) None (Some 0.5%float) None ∅)) <$> seq 0 n.

Definition stub_handle_chat (n : nat) :=
  handle_chat stub_detect_intents stub_rewrite stub_keywords stub_synthesis
    stub_general_search stub_perform_search None (stub_vector_search n).

Definition empty_assistant : assistant := MkAssistant ∅ ∅.

(** An assistant that stores a session of two results with the first page
    served. *)
Definition two_results : list fused :=
  [Fused (hit_with_id "a") 0.5%float; Fused (hit_with_id "b") 0.25%float].
Definition served_assistant : assistant :=
  MkAssistant {[ "s" := ["User: rat"; "Assistant: datasets from 1"] ]}
    {[ "s" := MkSession two_results 1 15 "rat" [] [DATA_DISCOVERY] "datasets from 1" ]}.

(** ** Definitions for the further properties *)

(** *** The searches of [global_fuzzy_keyword_search] *)

Section SearchTrace.

Variable _perform_search :
  string → string → string * string → all_configs_t → option (list hit).

(** The loop over the keywords once more, returning with [out] the keywords
    that [search_across_all_fields] was called for, in the order of the
    calls. *)
Fixpoint keyword_loop_searched (all_configs : all_configs_t) (top_k : nat)
    (keywords : list string) (acc : list hit * gset string)
  : list hit * list string :=
  match keywords with
  | [] => (acc.1, [])
  | kw :: rest =>
      if PyStr.truthy kw then
        let acc' := foldl add_unique acc
                      (search_across_all_fields _perform_search kw all_configs
                         default_threshold) in
        if top_k <=? length acc'.1 then (acc'.1, [kw])
        else
          let r := keyword_loop_searched all_configs top_k rest acc' in
          (r.1, kw :: r.2)
      else keyword_loop_searched all_configs top_k rest acc
  end.

(** The keywords that one call of [global_fuzzy_keyword_search] searches;
    none without the configuration file. *)
Definition keywords_searched (config : option all_configs_t)
    (keywords : list string) (top_k : nat) : list string :=
  match config with
  | None => []
  | Some all_configs =>
      (keyword_loop_searched all_configs top_k keywords ([], ∅)).2
  end.

End SearchTrace.

(** A block [(i, j, k)] whose [k] elements from [a[i]] on are the [k]
    elements of [b] from [b[j]] on. *)
Definition block_ok {A : Type} (a b : list A) (best : nat * nat * nat) : Prop :=
  take best.2 (drop best.1.1 a) = take best.2 (drop best.1.2 b).

(** ** The filters of [_perform_search] *)

(** The filter keys whose value is matched against the vocabulary again. *)
Definition FUZZY_FILTER_KEYS : list string := ["authors"; "creators"; "keywords"].

(** The list [exact_match_filters] that [_perform_search] builds from the
    dictionary [filters]: a term [(real_field, value)] for every filter whose
    key is configured for the data source, in the order of [filters]. *)
Definition exact_match_filters (data_source_id : string)
    (filters : list (string * string)) (all_configs : all_configs_t)
  : list (string * string) :=
  let valid_filter_map := default [] (dict_get data_source_id all_configs) in
  omap (λ '(key, value),
          match dict_get key valid_filter_map with
          | Some cfg =>
              let real_field := field cfg in
              if decide (key ∈ FUZZY_FILTER_KEYS) then
                match find_best_matches value (values cfg) default_threshold 5 with
                | best :: _ => Some (real_field, best)
                | [] => Some (real_field, value)
                end
              else Some (real_field, value)
          | None => None
          end) filters.

(** A configuration whose one field is matched again by [_perform_search]. *)
Definition authors_config : all_configs_t :=
  [("scr_017571_dandi",
    [("keywords", FieldConfig "dc.subject.keyword" ["rat"; "Mouse"; "mouse"])])].

(** ** Normalisation of the language model's answers ([agents.py])

    [call_gemini_for_keywords] and [call_gemini_detect_intents] parse the
    JSON answer of the model and then clean the list they find in it; the
    cleaning is modelled here.  An element of the parsed list is a string, or
    [None] for a value of another type. *)

(** [list(dict.fromkeys(l))]: the elements of [l] in order of first
    occurrence. *)
Definition fromkeys (l : list string) : list string :=
  (foldl (λ d k, dict_set k () d) [] l).*1.

(** [t.split(":", 1)[1]] when [":" in t] *)
Fixpoint after_colon (t : string) : option string :=
  match t with
  | EmptyString => None
  | String c t' => if decide (c = ":"%char) then Some t' else after_colon t'
  end.

(** The body of the loop of [call_gemini_for_keywords] for a string [k]:
    the cleaned keyword, or [None] when nothing is left of it. *)
Definition normalize_keyword (k : string) : option string :=
  let t := PyStr.strip k in
  let t := match after_colon t with
           | Some r => PyStr.strip r
           | None => t
           end in
  if PyStr.truthy t then Some t else None.

(** What [call_gemini_for_keywords] returns for the parsed list [kws]. *)
Definition normalize_keywords (kws : list (option string)) : list string :=
  take 20 (fromkeys (omap (λ k, k ≫= normalize_keyword) kws)).

(** [[i.value for i in QueryIntent]] *)
Definition ALLOWED_INTENTS : list string :=
  ["data_discovery"; "access_download"; "metadata_query"; "quality_check";
   "tooling_format"; "institution"; "greeting"].

(** What [call_gemini_detect_intents] returns for the parsed list. *)
Definition normalize_intents (raw : list (option string)) : list string :=
  let intents := filter (λ i, i ∈ ALLOWED_INTENTS) (omap id raw) in
  take 6 (fromkeys (match intents with [] => [DATA_DISCOVERY] | _ => intents end)).

(** ** Bounds that the assistant keeps *)

(** Every chat history has at most 20 entries, and every stored session has
    a page number of at least 1 and a page size between 1 and 999. *)
Definition assistant_ok (self : assistant) : Prop :=
  map_Forall (λ _ turns, length turns ≤ 20) (chat_history self) ∧
  map_Forall (λ _ mem, 1 ≤ mem_page mem ∧ 1 ≤ mem_page_size mem ≤ 999)
             (session_memory self).

(** ** Runs of continuation requests *)

(** The records of a list with their positions, counted from [k]. *)
Fixpoint number_from {A : Type} (k : nat) (l : list A) : list (nat * A) :=
  match l with
  | [] => []
  | x :: l' => (k, x) :: number_from (S k) l'
  end.

(** The records that the synthesis calls of a log were given, in order, each
    with the number it is listed under: the prompt numbers a batch
    sequentially from [start_number]. *)
Definition numbered (log : list call) : list (nat * fused) :=
  mjoin ((λ c, match c with
               | CallSynthesis _ search_results _ start _ =>
                   number_from start search_results
               | _ => []
               end) <$> log).

Section MoreRequests.

Variable call_gemini_detect_intents : string → list string → outcome (list string).
Variable call_gemini_rewrite_with_history : string → list string → outcome string.
Variable call_gemini_for_keywords : string → outcome (list string).
Variable call_gemini_for_final_synthesis :
  string → list fused → list string → nat → string → outcome string.
Variable general_search : string → nat → option (list hit).
Variable _perform_search :
  string → string → string * string → all_configs_t → option (list hit).
Variable datasources_config : option all_configs_t.
Variable vector_search : string → nat → list pyobj.

(** [n] requests "more" in a row for one session: the assistant afterwards
    and all the calls made. *)
Fixpoint more_requests (n : nat) (self : assistant) (sid : string)
  : assistant * list call :=
  match n with
  | 0 => (self, [])
  | S n' =>
      let r := handle_chat call_gemini_detect_intents
                 call_gemini_rewrite_with_history call_gemini_for_keywords
                 call_gemini_for_final_synthesis general_search _perform_search
                 datasources_config vector_search self sid "more" false in
      let r' := more_requests n' r.1.2 sid in
      (r'.1, (r.2 ++ r'.2)%list)
  end.

End MoreRequests.

(** Collaborators for the examples: a language model whose synthesis fails
    with the message of an empty reply, and one that takes every message for
    a greeting. *)
Definition failing_synthesis
  : string → list fused → list string → nat → string → outcome string :=
  λ _ _ _ _ _, Raise "Gemini synthesis returned empty text.".
Definition greeting_intents : string → list string → outcome (list string) :=
  λ _ _, Ok [GREETING].

(** ** Definitions for the fusion properties *)

(** The dictionaries of a result list, in order. *)
Definition dicts (l : list pyobj) : list hit :=
  omap (λ o, match o with PDict res => Some res | POther => None end) l.

(** Result lists for the examples. *)
Definition example_vector_results : list pyobj :=
  [PDict vector_hit_a; POther; PDict vector_hit_unscored].
Definition example_ks_results : list pyobj :=
  [PDict ks_hit_unscored; PDict ks_hit_a; PDict hit_without_id].

(** ** The vector search ([retrieval.py], [Retriever.search], and
    [VectorSearchAgent.run] of [agents.py]) *)

(** One neighbour that the index returns: the datapoint id and the
    distance, [None] for a distance that is [None] or is not a number. *)
Record neighbor := Neighbor {
  nb_id : string;
  nb_distance : option float;
}.

(** [x or 20] for a count *)
Definition or_20 (top_k : nat) : nat :=
  match top_k with 0 => 20 | _ => top_k end.

(** [n = max(1, min((top_k or 20) * 2, 100))] *)
Definition num_neighbors (top_k : nat) : nat := 1 `max` ((or_20 top_k * 2) `min` 100).

(** [-float(dist) if dist is not None else 0.0], and [0.0] when the
    conversion raises *)
Definition similarity_of (dist : option float) : float :=
  match dist with
  | Some d => (- d)%float
  | None => 0%float
  end.

Section Retriever.

(** [is_enabled]: the configuration is complete and the clients and the
    embedding model were set up.  [_embed] and [find_neighbors] are the
    embedding model and the index, [None] when they raise; [find_neighbors]
    stands for [results[0] if results else []].  [item_fields] gives the
    fields [title_guess], [content], [metadata], [primary_link] and
    [other_links] that are filled in for a datapoint from its row of the
    metadata table. *)
Variable is_enabled : bool.
Variable _embed : string → option (list float).
Variable find_neighbors : list float → nat → option (list neighbor).
Variable item_fields : string → gmap string string.

(** The [__dict__] of the [RetrievedItem] built for a neighbour. *)
Definition retrieved_item (nb : neighbor) : hit :=
  Hit (Some (nb_id nb)) None (Some (similarity_of (nb_distance nb))) None
      (item_fields (nb_id nb)).

(** [Retriever.search(query, top_k)] *)
Definition retriever_search (query : string) (top_k : nat) : list hit :=
  if negb is_enabled || negb (PyStr.truthy query) then []
  else
    match _embed query with
    | None => []
    | Some vec =>
        match find_neighbors vec (num_neighbors top_k) with
        | None => []
        | Some neighbors =>
            take (or_20 top_k)
              (sort_reverse (λ item, default 0%float (get_similarity item))
                 PrimFloat.ltb (retrieved_item <$> neighbors))
        end
    end.

(** [VectorSearchAgent.run(query, want)] *)
Definition vector_agent_run (query : string) (want : nat) : list pyobj :=
  if negb is_enabled then []
  else PDict <$> retriever_search query (want `min` 50).

End Retriever.

(** An index for the examples: it returns the ids 0 to n-1, each at the
    distance -0.25, for any query. *)
Definition stub_embed : string → option (list float) := λ _, Some [].
Definition stub_find_neighbors (n : nat) : list float → nat → option (list neighbor) :=
  λ _ _, Some ((λ i, Neighbor (pretty i) (Some (-0.25)%float)) <$> seq 0 n).
Definition stub_item_fields : string → gmap string string := λ _, ∅.

(** * Properties *)

(** ** The stable descending sort *)

Section SortReverseFacts.
Context {A K : Type} (key : A → K) (ltb : K → K → bool).

Lemma insert_desc_perm x l : insert_desc key ltb x l ≡ₚ x :: l.
Proof.
  induction l as [|y l IH]; simpl; [done|].
  destruct (ltb (key x) (key y)); [|done].
  rewrite IH. apply Permutation_swap.
Qed.

Lemma sort_reverse_perm l : sort_reverse key ltb l ≡ₚ l.
Proof.
  induction l as [|x l IH]; simpl; [done|].
  by rewrite insert_desc_perm, IH.
Qed.

Lemma sort_reverse_length l : length (sort_reverse key ltb l) = length l.
Proof. by rewrite sort_reverse_perm. Qed.

(** Elements of one key class keep their relative order. *)
Lemma insert_desc_filter (P : A → Prop) `{∀ x, Decision (P x)} x l :
  (∀ a b, P a → P b → ltb (key a) (key b) = false) →
  filter P (insert_desc key ltb x l) = filter P (x :: l).
Proof.
  intros HP. induction l as [|y l IH]; simpl; [done|].
  destruct (ltb (key x) (key y)) eqn:E; [|done].
  rewrite !filter_cons in *.
  destruct (decide (P y)) as [Hy|Hy], (decide (P x)) as [Hx|Hx];
    rewrite ?IH; try done.
  by rewrite (HP x y) in E.
Qed.

Lemma sort_reverse_filter (P : A → Prop) `{∀ x, Decision (P x)} l :
  (∀ a b, P a → P b → ltb (key a) (key b) = false) →
  filter P (sort_reverse key ltb l) = filter P l.
Proof.
  intros HP. induction l as [|x l IH]; simpl; [done|].
  rewrite insert_desc_filter by done.
  by rewrite !filter_cons, IH.
Qed.

(** The output is in descending key order when [ltb] is asymmetric and its
    complement is transitive. *)
Hypothesis ltb_asym : ∀ a b, ltb a b = true → ltb b a = false.
Hypothesis geb_trans : ∀ a b c, ltb a b = false → ltb b c = false → ltb a c = false.

Lemma insert_desc_sorted x l :
  StronglySorted (desc key ltb) l → StronglySorted (desc key ltb) (insert_desc key ltb x l).
Proof.
  induction 1 as [|y l Hl IH Hy]; simpl.
  { repeat constructor. }
  destruct (ltb (key x) (key y)) eqn:E.
  - constructor; [done|].
    rewrite insert_desc_perm. constructor; [by apply ltb_asym|done].
  - constructor; [by constructor|].
    constructor; [done|].
    eapply Forall_impl; [exact Hy|]. intros z Hz. by eapply geb_trans.
Qed.

Lemma sort_reverse_sorted l : StronglySorted (desc key ltb) (sort_reverse key ltb l).
Proof.
  induction l as [|x l IH]; simpl; [constructor|].
  by apply insert_desc_sorted.
Qed.

End SortReverseFacts.

Lemma insert_desc_fmap {A B K} (f : B → A) (key : A → K) ltb x l :
  insert_desc key ltb (f x) (f <$> l) = f <$> insert_desc (key ∘ f) ltb x l.
Proof.
  induction l as [|y l IH]; csimpl; [done|].
  destruct (ltb (key (f x)) (key (f y))); csimpl; [by rewrite IH|done].
Qed.

Lemma sort_reverse_fmap {A B K} (f : B → A) (key : A → K) ltb l :
  sort_reverse key ltb (f <$> l) = f <$> sort_reverse (key ∘ f) ltb l.
Proof.
  induction l as [|x l IH]; [done|].
  change (insert_desc key ltb (f x) (sort_reverse key ltb (f <$> l))
          = f <$> insert_desc (key ∘ f) ltb x (sort_reverse (key ∘ f) ltb l)).
  rewrite IH. apply insert_desc_fmap.
Qed.

(** ** Fuzzy field matcher *)

Lemma Qltb_false p q : Qltb p q = false ↔ (q <= p)%Q.
Proof.
  unfold Qltb. rewrite negb_false_iff. apply Qle_bool_iff.
Qed.

Lemma Qltb_asym p q : Qltb p q = true → Qltb q p = false.
Proof.
  unfold Qltb. rewrite negb_true_iff, negb_false_iff.
  intros H. apply Qle_bool_iff. apply Qlt_le_weak, Qnot_le_lt.
  intros Hle. apply Qle_bool_iff in Hle. congruence.
Qed.

Lemma Qltb_geb_trans p q r :
  Qltb p q = false → Qltb q r = false → Qltb p r = false.
Proof. rewrite !Qltb_false. intros ??. by eapply Qle_trans. Qed.

Lemma StronglySorted_lookup_lt {A} (R : relation A) l i j x y :
  StronglySorted R l → i < j → l !! i = Some x → l !! j = Some y → R x y.
Proof.
  intros Hl. revert i j. induction Hl as [|z l Hl IH Hz]; intros i j Hij Hi Hj.
  { by rewrite lookup_nil in Hi. }
  destruct j as [|j]; [lia|]. destruct i as [|i]; simplify_eq/=.
  - rewrite Forall_forall in Hz. apply Hz. by eapply list_elem_of_lookup_2.
  - eapply IH; [|done..]. lia.
Qed.

Lemma StronglySorted_take {A} (R : relation A) n l :
  StronglySorted R l → StronglySorted R (take n l).
Proof.
  intros Hl. revert n. induction Hl as [|z l Hl IH Hz]; intros [|n]; simpl;
    try constructor; [done|].
  eapply Forall_forall. intros y Hy. rewrite Forall_forall in Hz.
  apply Hz. by eapply subseteq_take.
Qed.

Lemma fuzzy_match_true query target threshold :
  fuzzy_match query target threshold = true ↔
  PyStr.truthy query = true ∧ PyStr.truthy target = true ∧
  (threshold <= similarity_ratio query target)%Q.
Proof.
  unfold fuzzy_match.
  destruct (PyStr.truthy query), (PyStr.truthy target); simpl;
    rewrite ?Qle_bool_iff; intuition congruence.
Qed.

Lemma scored_matches_fmap query candidates threshold :
  scored_matches query candidates threshold =
  (λ c, (c, similarity_ratio query c))
    <$> filter (λ c, fuzzy_match query c threshold = true) candidates.
Proof.
  unfold scored_matches. induction candidates as [|c cs IH]; [done|].
  csimpl. rewrite filter_cons, IH.
  destruct (fuzzy_match query c threshold); by case_decide.
Qed.

(** [find_best_matches] is the first [max_matches] candidates of the stable
    descending sort of the matching candidates by their ratio. *)
Lemma find_best_matches_eq query candidates threshold max_matches :
  find_best_matches query candidates threshold max_matches =
  take max_matches
    (sort_reverse (similarity_ratio query) Qltb
       (filter (λ c, fuzzy_match query c threshold = true) candidates)).
Proof.
  unfold find_best_matches. rewrite scored_matches_fmap, sort_reverse_fmap.
  rewrite fmap_take, <- list_fmap_compose. by rewrite list_fmap_id.
Qed.

(** C5: [find_best_matches] returns at most [max_matches] candidates, each
    of ratio at least the threshold, in descending order of ratio; it is the
    prefix of the full ranking, which holds every matching candidate once and
    keeps candidates of equal ratio in vocabulary order.  On the vocabulary
    hippocampus, Hippocampus, hipp0campus, thalamus the token hippocampus
    selects the first three, in that order. *)
Theorem find_best_matches_spec (query : string) (candidates : list string)
    (threshold : Q) (max_matches : nat) :
  let out := find_best_matches query candidates threshold max_matches in
  let matching := filter (λ c, fuzzy_match query c threshold = true) candidates in
  let ranked := find_best_matches query candidates threshold (length candidates) in
  length out ≤ max_matches ∧
  (∀ c, c ∈ out → c ∈ candidates ∧ (threshold <= similarity_ratio query c)%Q) ∧
  (∀ i j x y, i < j → out !! i = Some x → out !! j = Some y →
     (similarity_ratio query y <= similarity_ratio query x)%Q) ∧
  out = take max_matches ranked ∧
  ranked ≡ₚ matching ∧
  (∀ r : Q, filter (λ c, similarity_ratio query c == r)%Q ranked
            = filter (λ c, similarity_ratio query c == r)%Q matching) ∧
  find_best_matches "hippocampus"
    ["hippocampus"; "Hippocampus"; "hipp0campus"; "thalamus"] default_threshold 5
  = ["hippocampus"; "Hippocampus"; "hipp0campus"].
Proof.
  intros out matching ranked.
  assert (Hranked : ranked = sort_reverse (similarity_ratio query) Qltb matching).
  { unfold ranked. rewrite find_best_matches_eq. apply take_ge.
    rewrite sort_reverse_length. apply length_filter. }
  assert (Hout : out = take max_matches ranked).
  { unfold out. by rewrite find_best_matches_eq, Hranked. }
  assert (Hperm : ranked ≡ₚ matching).
  { rewrite Hranked. apply sort_reverse_perm. }
  split_and!.
  - rewrite Hout, length_take. lia.
  - intros c Hc. rewrite Hout in Hc. apply subseteq_take in Hc.
    rewrite Hperm in Hc. apply list_elem_of_filter in Hc as [Hm Hc].
    split; [done|]. by apply fuzzy_match_true in Hm as (_ & _ & Hm).
  - intros i j x y Hij Hx Hy. apply Qltb_false.
    eapply (StronglySorted_lookup_lt (desc (similarity_ratio query) Qltb));
      [|exact Hij|exact Hx|exact Hy].
    rewrite Hout, Hranked. apply StronglySorted_take, sort_reverse_sorted.
    + apply Qltb_asym.
    + apply Qltb_geb_trans.
  - done.
  - done.
  - intros r. rewrite Hranked. apply sort_reverse_filter.
    intros a b Ha Hb. apply Qltb_false. rewrite Ha, Hb. apply Qle_refl.
  - vm_compute. reflexivity.
Qed.

(** ** The sequence matcher: blocks stay inside both sequences *)

Section DifflibFacts.
Context {A : Type} `{EqDecision A}.

Lemma common_prefix_le (a b : list A) :
  Difflib.common_prefix a b ≤ length a ∧ Difflib.common_prefix a b ≤ length b.
Proof.
  revert b. induction a as [|x a IH]; intros [|y b]; simpl; try lia.
  case_decide; [|lia]. specialize (IH b). lia.
Qed.

Lemma scan_b_fits (a b : list A) i j best :
  fits (i + length a) (j + length b) best →
  fits (i + length a) (j + length b) (Difflib.scan_b a b i j best).
Proof.
  revert j best. induction b as [|y b IH]; intros j best Hbest; simpl; [done|].
  replace (j + S (length b)) with (S j + length b) by lia.
  apply IH. replace (S j + length b) with (j + length (y :: b)) by (simpl; lia).
  case_match; [|done].
  pose proof (common_prefix_le a (y :: b)). unfold fits. simpl in *. lia.
Qed.

Lemma scan_a_fits (a b : list A) i best :
  fits (i + length a) (length b) best →
  fits (i + length a) (length b) (Difflib.scan_a a b i best).
Proof.
  revert i best. induction a as [|x a IH]; intros i best Hbest; simpl; [done|].
  replace (i + S (length a)) with (S i + length a) by lia.
  apply IH. replace (S i + length a) with (i + length (x :: a)) by (simpl; lia).
  by apply (scan_b_fits (x :: a) b i 0).
Qed.

Lemma find_longest_match_fits (a b : list A) :
  fits (length a) (length b) (Difflib.find_longest_match a b).
Proof.
  apply (scan_a_fits a b 0). unfold fits. simpl. lia.
Qed.

Lemma matches_fuel_le n (a b : list A) :
  Difflib.matches_fuel n a b ≤ length a ∧ Difflib.matches_fuel n a b ≤ length b.
Proof.
  revert a b. induction n as [|n IH]; intros a b; simpl; [lia|].
  pose proof (find_longest_match_fits a b) as Hfit.
  destruct (Difflib.find_longest_match a b) as [[i j] k].
  unfold fits in Hfit. simpl in Hfit.
  destruct (k =? 0); [lia|].
  pose proof (IH (take i a) (take j b)) as Hl.
  pose proof (IH (drop (i + k) a) (drop (j + k) b)) as Hr.
  rewrite !length_take in Hl. rewrite !length_drop in Hr. lia.
Qed.

(** The fuel [length a] of [matches] is enough: more fuel gives the same
    count. *)
Lemma matches_fuel_step n : ∀ a b : list A,
  length a ≤ n → Difflib.matches_fuel (S n) a b = Difflib.matches_fuel n a b.
Proof.
  induction n as [|n IH]; intros a b Hlen.
  - destruct a; [reflexivity|simpl in Hlen; lia].
  - change (Difflib.matches_fuel (S (S n)) a b) with
      (let '(i, j, k) := Difflib.find_longest_match a b in
       if k =? 0 then 0
       else Difflib.matches_fuel (S n) (take i a) (take j b) + k
            + Difflib.matches_fuel (S n) (drop (i + k) a) (drop (j + k) b)).
    change (Difflib.matches_fuel (S n) a b) with
      (let '(i, j, k) := Difflib.find_longest_match a b in
       if k =? 0 then 0
       else Difflib.matches_fuel n (take i a) (take j b) + k
            + Difflib.matches_fuel n (drop (i + k) a) (drop (j + k) b)).
    pose proof (find_longest_match_fits a b) as Hfit.
    destruct (Difflib.find_longest_match a b) as [[i j] k].
    unfold fits in Hfit. simpl in Hfit.
    destruct (k =? 0) eqn:Ek; [done|]. apply Nat.eqb_neq in Ek.
    rewrite !IH; [done| |].
    + rewrite length_drop. lia.
    + rewrite length_take. lia.
Qed.

Lemma matches_fuel_enough n (a b : list A) :
  length a ≤ n → Difflib.matches_fuel n a b = Difflib.matches a b.
Proof.
  unfold Difflib.matches. induction n as [|n IH]; intros Hlen.
  - by replace (length a) with 0 by lia.
  - destruct (decide (length a = S n)) as [->|Hne]; [done|].
    rewrite matches_fuel_step by lia. apply IH. lia.
Qed.

Lemma matches_le (a b : list A) :
  2 * Difflib.matches a b ≤ length a + length b.
Proof.
  unfold Difflib.matches. pose proof (matches_fuel_le (length a) a b). lia.
Qed.

Lemma ratio_bounds (a b : list A) :
  (0 <= Difflib.ratio a b)%Q ∧ (Difflib.ratio a b <= 1)%Q.
Proof.
  unfold Difflib.ratio. pose proof (matches_le a b) as Hm.
  destruct (length a + length b =? 0) eqn:E; [done|].
  apply Nat.eqb_neq in E.
  unfold Qle. simpl. rewrite Z.mul_1_r, Z.mul_1_l.
  split; [lia|].
  rewrite <- (positive_nat_Z (Pos.of_nat _)), Nat2Pos.id by done.
  lia.
Qed.

End DifflibFacts.

Lemma lower_char_idemp c : PyStr.lower_char (PyStr.lower_char c) = PyStr.lower_char c.
Proof. destruct c as [[] [] [] [] [] [] [] []]; vm_compute; reflexivity. Qed.

Lemma lower_idemp s : PyStr.lower (PyStr.lower s) = PyStr.lower s.
Proof.
  induction s as [|c s IH]; simpl; [done|].
  by rewrite lower_char_idemp, IH.
Qed.

Lemma lower_truthy s : PyStr.truthy (PyStr.lower s) = PyStr.truthy s.
Proof. by destruct s. Qed.

Lemma truthy_true s : PyStr.truthy s = true ↔ s ≠ EmptyString.
Proof. by destruct s. Qed.

Lemma similarity_ratio_bounds query target :
  (0 <= similarity_ratio query target)%Q ∧ (similarity_ratio query target <= 1)%Q.
Proof. apply ratio_bounds. Qed.

Lemma lower_char_ascii c :
  (nat_of_ascii (PyStr.lower_char c) <? 128) = (nat_of_ascii c <? 128).
Proof. destruct c as [[] [] [] [] [] [] [] []]; vm_compute; reflexivity. Qed.

Lemma lower_ascii_only s : ascii_only (PyStr.lower s) = ascii_only s.
Proof.
  unfold ascii_only. induction s as [|c s IH]; simpl; [done|].
  by rewrite lower_char_ascii, IH.
Qed.

(** C9 (as the code has it), for strings of ASCII characters: [fuzzy_match]
    does not depend on the letter case of either argument, at any threshold;
    the ratio lies between 0 and 1; and [fuzzy_match] holds exactly when both
    strings are non-empty and the ratio of the first to the second is at
    least the threshold.  A string with the lowercase form of an ASCII string
    is an ASCII string. *)
Theorem fuzzy_match_case_insensitive (a a' b b' : string) (threshold : Q) :
  ascii_only a = true →
  ascii_only b = true →
  PyStr.lower a = PyStr.lower a' →
  PyStr.lower b = PyStr.lower b' →
  (ascii_only a' = true ∧ ascii_only b' = true) ∧
  fuzzy_match a b threshold = fuzzy_match a' b' threshold ∧
  similarity_ratio a b = similarity_ratio a' b' ∧
  (0 <= similarity_ratio a b)%Q ∧ (similarity_ratio a b <= 1)%Q ∧
  (fuzzy_match a b threshold = true ↔
   a ≠ EmptyString ∧ b ≠ EmptyString ∧ (threshold <= similarity_ratio a b)%Q).
Proof.
  intros Haa Hba Ha Hb.
  assert (Hr : similarity_ratio a b = similarity_ratio a' b').
  { unfold similarity_ratio. by rewrite Ha, Hb. }
  split_and!.
  - by rewrite <- lower_ascii_only, <- Ha, lower_ascii_only.
  - by rewrite <- lower_ascii_only, <- Hb, lower_ascii_only.
  - unfold fuzzy_match. rewrite Hr.
    by rewrite <- (lower_truthy a), <- (lower_truthy b), Ha, Hb, !lower_truthy.
  - done.
  - apply similarity_ratio_bounds.
  - apply similarity_ratio_bounds.
  - rewrite fuzzy_match_true, !truthy_true. done.
Qed.

Lemma fuzzy_match_case_insensitive_witness :
  ascii_only "Hippocampus" = true ∧ ascii_only "HIPP0CAMPUS" = true ∧
  PyStr.lower "Hippocampus" = PyStr.lower "hippoCAMPUS" ∧
  PyStr.lower "HIPP0CAMPUS" = PyStr.lower "hipp0campus" ∧
  fuzzy_match "Hippocampus" "HIPP0CAMPUS" default_threshold
  = fuzzy_match "hippoCAMPUS" "hipp0campus" default_threshold.
Proof.
  split; [reflexivity|]. split; [reflexivity|].
  split; [reflexivity|]. split; [reflexivity|].
  apply (proj1 (proj2 (fuzzy_match_case_insensitive
                         "Hippocampus" "hippoCAMPUS" "HIPP0CAMPUS" "hipp0campus"
                         default_threshold eq_refl eq_refl eq_refl eq_refl))).
Defined.

(** C9, as stated, fails: the ratio depends on the order of its arguments,
    at the default threshold and at others, and two empty strings never
    match although their ratio is 1. *)
Lemma fuzzy_match_not_symmetric :
  (fuzzy_match "aaaba" "abaab" default_threshold = true ∧
   fuzzy_match "abaab" "aaaba" default_threshold = false) ∧
  (fuzzy_match "tide" "diet" (1 # 2) = false ∧
   fuzzy_match "diet" "tide" (1 # 2) = true) ∧
  (fuzzy_match EmptyString EmptyString default_threshold = false ∧
   (default_threshold <= similarity_ratio EmptyString EmptyString)%Q).
Proof. repeat split; try (vm_compute; reflexivity). vm_compute. discriminate. Qed.

(** ** The deduplicated union of the fuzzy keyword search *)

Lemma truthy_field_Some x s :
  truthy_field x = Some s → x = Some s ∧ s ≠ EmptyString.
Proof.
  destruct x as [t|]; simpl; [|done].
  destruct t; simpl; [done|]. intros [= <-]. done.
Qed.

Lemma py_or_Some x y s :
  py_or x y = Some s → s ≠ EmptyString ∧ (x = Some s ∨ y = Some s).
Proof.
  unfold py_or. destruct (truthy_field x) as [t|] eqn:E.
  - intros [= <-]. apply truthy_field_Some in E as [-> ?]. auto.
  - intros Hy. apply truthy_field_Some in Hy as [-> ?]. auto.
Qed.

Lemma py_or_None x y :
  py_or x y = None ↔ truthy_field x = None ∧ truthy_field y = None.
Proof. unfold py_or. destruct (truthy_field x); intuition congruence. Qed.

Lemma add_unique_ok acc r : pool_ok acc → pool_ok (add_unique acc r).
Proof.
  destruct acc as [out seen]. intros [Hall Hnd]. unfold add_unique.
  destruct (result_id r) as [rid|] eqn:Hr; [|done].
  case_decide as Hseen; [done|]. split; simpl in *.
  - apply Forall_app. split.
    + eapply Forall_impl; [exact Hall|]. intros x (i & Hi & Hin).
      exists i. split; [done|]. set_solver.
    + constructor; [|done]. exists rid. split; [done|]. set_solver.
  - rewrite fmap_app. apply NoDup_app. split_and!; [done| |by apply NoDup_singleton].
    intros o Ho Ho'. apply list_elem_of_singleton in Ho'. subst o.
    apply list_elem_of_fmap in Ho as (x & Hx & Hin). rewrite Hr in Hx.
    rewrite Forall_forall in Hall. destruct (Hall x Hin) as (i & Hi & Hi').
    congruence.
Qed.

Lemma foldl_add_unique_ok rs acc : pool_ok acc → pool_ok (foldl add_unique acc rs).
Proof.
  revert acc. induction rs as [|r rs IH]; intros acc Hacc; simpl; [done|].
  by apply IH, add_unique_ok.
Qed.

Section SearchFacts.
Variable _perform_search :
  string → string → string * string → all_configs_t → option (list hit).

Lemma keyword_loop_ok all_configs top_k keywords acc :
  pool_ok acc →
  ∃ seen, pool_ok (keyword_loop _perform_search all_configs top_k keywords acc, seen).
Proof.
  revert acc. induction keywords as [|kw rest IH]; intros acc Hacc; simpl.
  { exists acc.2. by destruct acc. }
  destruct (PyStr.truthy kw); [|by apply IH].
  set (acc' := foldl add_unique acc _).
  assert (pool_ok acc') as Hacc' by by apply foldl_add_unique_ok.
  case_match; [|by apply IH].
  exists acc'.2. by destruct acc'.
Qed.

End SearchFacts.

(** C10: every result of [global_fuzzy_keyword_search] has a truthy id, its
    ["_id"] or else its ["id"], and no id occurs twice; a matched hit with
    neither is left out, also when fewer than [top_k] results were found, as
    in the example, where one of four matched hits is returned for a pool of
    20. *)
Theorem global_fuzzy_keyword_search_ids
    (_perform_search : string → string → string * string → all_configs_t
                       → option (list hit))
    (config : option all_configs_t) (keywords : list string) (top_k : nat) :
  let out := global_fuzzy_keyword_search _perform_search config keywords top_k in
  Forall (λ r, ∃ rid, result_id r = Some rid ∧ rid ≠ EmptyString
                      ∧ (get__id r = Some rid ∨ get_id r = Some rid)) out ∧
  Forall (λ r, ¬ (truthy_field (get__id r) = None
                  ∧ truthy_field (get_id r) = None)) out ∧
  NoDup (result_id <$> out) ∧
  global_fuzzy_keyword_search (λ _ _ _ _, Some example_hits)
    (Some example_config) ["Mouse"] 20
  = [Hit None (Some "a") None (Some 1%float) ∅].
Proof.
  intros out.
  assert (Hok : ∃ full seen, out = take top_k full ∧ pool_ok (full, seen)).
  { unfold out, global_fuzzy_keyword_search. destruct config as [all_configs|].
    - destruct (keyword_loop_ok _perform_search all_configs top_k keywords ([], ∅))
        as [seen Hseen].
      { split; simpl; constructor. }
      eauto.
    - exists [], ∅. split; [by rewrite take_nil|]. split; simpl; constructor. }
  destruct Hok as (full & seen & -> & Hall & Hnd). simpl in Hall, Hnd.
  assert (Hids : Forall (λ r, ∃ rid, result_id r = Some rid ∧ rid ≠ EmptyString
                      ∧ (get__id r = Some rid ∨ get_id r = Some rid))
                   (take top_k full)).
  { apply Forall_take. eapply Forall_impl; [exact Hall|].
    intros r (rid & Hr & _). exists rid. split; [done|].
    by apply py_or_Some in Hr. }
  split_and!.
  - done.
  - eapply Forall_impl; [exact Hids|]. intros r (rid & Hr & _) Hnone.
    apply py_or_None in Hnone. unfold result_id in Hr. congruence.
  - rewrite fmap_take. eapply sublist_NoDup; [exact Hnd|]. apply sublist_take.
  - vm_compute. reflexivity.
Qed.

(** ** The insertion-ordered dictionary *)

Section DictFacts.
Context {V : Type}.
Implicit Types (d : list (string * V)) (k : string) (v : V).

Lemma dict_get_set k k' v d :
  dict_get k (dict_set k' v d) = if decide (k = k') then Some v else dict_get k d.
Proof.
  induction d as [|[k0 v0] d IH]; simpl.
  - by repeat case_decide.
  - repeat (case_decide; simpl; simplify_eq); try done.
    all: rewrite IH; by case_decide.
Qed.

Lemma dict_get_None k d : dict_get k d = None ↔ k ∉ d.*1.
Proof.
  induction d as [|[k0 v0] d IH]; csimpl.
  - split; [intros _; apply not_elem_of_nil|done].
  - rewrite not_elem_of_cons. case_decide; [|tauto]. split; [done|tauto].
Qed.

Lemma dict_get_Some_elem k v d : dict_get k d = Some v → (k, v) ∈ d.
Proof.
  induction d as [|[k0 v0] d IH]; simpl; [done|].
  case_decide; [intros [= ->]; subst; left|right; auto].
Qed.

Lemma dict_elem_get k v d : NoDup d.*1 → (k, v) ∈ d → dict_get k d = Some v.
Proof.
  induction d as [|[k0 v0] d IH]; csimpl; intros Hnd Hin.
  { by apply elem_of_nil in Hin. }
  apply NoDup_cons in Hnd as [Hk0 Hnd].
  apply elem_of_cons in Hin as [[= -> ->]|Hin]; [by rewrite decide_True|].
  rewrite decide_False; [by apply IH|].
  intros ->. apply Hk0. apply list_elem_of_fmap. by exists (k0, v).
Qed.

Lemma dict_set_keys k v d :
  (dict_set k v d).*1 = if decide (k ∈ d.*1) then d.*1 else d.*1 ++ [k].
Proof.
  induction d as [|[k0 v0] d IH]; csimpl.
  - destruct (decide (k ∈ [])) as [H|H]; [by apply elem_of_nil in H|done].
  - destruct (decide (k = k0)) as [->|Hne]; csimpl.
    + destruct (decide (k0 ∈ k0 :: d.*1)) as [H|H]; [done|].
      exfalso. apply H. left.
    + rewrite IH.
      destruct (decide (k ∈ d.*1)) as [H|H],
               (decide (k ∈ k0 :: d.*1)) as [H'|H']; try done.
      * exfalso. apply H'. by right.
      * exfalso. apply elem_of_cons in H' as [?|?]; done.
Qed.

Lemma dict_set_NoDup k v d : NoDup d.*1 → NoDup (dict_set k v d).*1.
Proof.
  intros Hnd. rewrite dict_set_keys. case_decide; [done|].
  apply NoDup_app. split_and!; [done| |apply NoDup_singleton].
  intros x Hx Hx'. apply list_elem_of_singleton in Hx'. by subst.
Qed.

Lemma dict_set_key_set k v d :
  list_to_set (dict_set k v d).*1 =@{gset string} {[k]} ∪ list_to_set d.*1.
Proof.
  rewrite dict_set_keys. destruct (decide (k ∈ d.*1)) as [Hin|Hin].
  - assert (k ∈ (list_to_set d.*1 : gset string)) by by apply elem_of_list_to_set.
    set_solver.
  - rewrite list_to_set_app_L. simpl. set_solver.
Qed.

End DictFacts.

(** ** Result fusion: what the two loops compute *)

Lemma hits_with_id_app d l1 l2 :
  hits_with_id d (l1 ++ l2) = hits_with_id d l1 ++ hits_with_id d l2.
Proof. unfold hits_with_id. by rewrite filter_app, fmap_app. Qed.

Lemma hits_with_id_singleton d k r :
  hits_with_id d [(k, r)] = if decide (k = d) then [r] else [].
Proof.
  unfold hits_with_id. rewrite filter_cons, filter_nil. simpl.
  by destruct (decide (k = d)).
Qed.

Lemma vector_pass_get (d : string) (vec : list pyobj) : ∀ c,
  dict_get d (foldl add_vector c vec) =
  match last (hits_with_id d (vector_doc_ids c vec)) with
  | Some v => Some (Fused v (vector_contribution v))
  | None => dict_get d c
  end.
Proof.
  induction vec as [|o rest IH]; intros c; [done|].
  cbn [foldl vector_doc_ids]. rewrite IH, hits_with_id_app, last_app.
  destruct (last (hits_with_id d (vector_doc_ids (add_vector c o) rest))); [done|].
  destruct o as [res|]; [|done].
  rewrite hits_with_id_singleton. simpl. rewrite dict_get_set.
  destruct (decide (d = vector_doc_id c res)) as [->|Hne].
  - by rewrite decide_True.
  - by rewrite decide_False.
Qed.

Lemma add_ks_get d c res :
  dict_get d (add_ks c (PDict res)) =
  if decide (ks_doc_id c res = d) then
    match dict_get d c with
    | Some old => Some (Fused (doc old) (final_score old + ks_contribution res)%float)
    | None => Some (Fused res (ks_contribution res))
    end
  else dict_get d c.
Proof.
  simpl. destruct (decide (ks_doc_id c res = d)) as [<-|Hne].
  - destruct (dict_get (ks_doc_id c res) c) eqn:E;
      by rewrite dict_get_set, decide_True.
  - destruct (dict_get (ks_doc_id c res) c);
      by rewrite dict_get_set, decide_False.
Qed.

Lemma ks_pass_get (d : string) (ks : list pyobj) : ∀ c,
  dict_get d (foldl add_ks c ks) =
  match dict_get d c, hits_with_id d (ks_doc_ids c ks) with
  | Some f, hs => Some (Fused (doc f) (add_contributions (final_score f) hs))
  | None, k :: hs => Some (Fused k (add_contributions (ks_contribution k) hs))
  | None, [] => None
  end.
Proof.
  induction ks as [|o rest IH]; intros c.
  { simpl. destruct (dict_get d c) as [[]|]; done. }
  cbn [foldl ks_doc_ids]. rewrite IH, hits_with_id_app.
  destruct o as [res|]; [|done].
  rewrite hits_with_id_singleton, add_ks_get.
  destruct (decide (ks_doc_id c res = d)) as [Hd|Hd]; [|done].
  destruct (dict_get d c) as [old|]; done.
Qed.

(** The record stored under each id after both loops. *)
Lemma combined_dict_get (d : string) (ks vec : list pyobj) :
  dict_get d (combined_dict ks vec) =
  match payload_source d (vector_doc_ids [] vec)
          (ks_doc_ids (foldl add_vector [] vec) ks),
        weighted_sum d (vector_doc_ids [] vec)
          (ks_doc_ids (foldl add_vector [] vec) ks) with
  | Some p, Some s => Some (Fused p s)
  | _, _ => None
  end.
Proof.
  unfold combined_dict, payload_source, weighted_sum.
  rewrite ks_pass_get, vector_pass_get. simpl.
  destruct (last (hits_with_id d (vector_doc_ids [] vec))); [done|].
  by destruct (hits_with_id d (ks_doc_ids _ ks)).
Qed.

Lemma add_vector_NoDup c o : NoDup c.*1 → NoDup (add_vector c o).*1.
Proof. destruct o; simpl; [apply dict_set_NoDup|done]. Qed.

Lemma add_ks_NoDup c o : NoDup c.*1 → NoDup (add_ks c o).*1.
Proof.
  destruct o as [res|]; simpl; [|done].
  destruct (dict_get _ c); apply dict_set_NoDup.
Qed.

Lemma foldl_NoDup (step : dict_t → pyobj → dict_t) (l : list pyobj) :
  (∀ c o, NoDup c.*1 → NoDup (step c o).*1) →
  ∀ c, NoDup c.*1 → NoDup (foldl step c l).*1.
Proof.
  intros Hstep. induction l as [|o l IH]; intros c Hc; simpl; [done|].
  by apply IH, Hstep.
Qed.

Lemma combined_dict_NoDup (ks vec : list pyobj) : NoDup (combined_dict ks vec).*1.
Proof.
  unfold combined_dict.
  apply foldl_NoDup; [apply add_ks_NoDup|].
  apply foldl_NoDup; [apply add_vector_NoDup|]. constructor.
Qed.

Lemma all_sorted_items_perm (ks vec : list pyobj) :
  all_sorted_items ks vec ≡ₚ combined_dict ks vec.
Proof. apply sort_reverse_perm. Qed.

Lemma all_sorted_items_values (ks vec : list pyobj) :
  (all_sorted_items ks vec).*2 = all_sorted ks vec.
Proof. unfold all_sorted, all_sorted_items. by rewrite sort_reverse_fmap. Qed.

Lemma all_sorted_items_NoDup (ks vec : list pyobj) :
  NoDup (all_sorted_items ks vec).*1.
Proof. rewrite all_sorted_items_perm. apply combined_dict_NoDup. Qed.

Lemma all_sorted_items_elem (ks vec : list pyobj) d f :
  (d, f) ∈ all_sorted_items ks vec ↔ dict_get d (combined_dict ks vec) = Some f.
Proof.
  rewrite all_sorted_items_perm. split.
  - apply dict_elem_get, combined_dict_NoDup.
  - apply dict_get_Some_elem.
Qed.

Lemma hits_with_id_nil d ids : hits_with_id d ids = [] ↔ d ∉ ids.*1.
Proof.
  unfold hits_with_id. induction ids as [|[k r] ids IH]; csimpl.
  - split; [intros _; apply not_elem_of_nil|done].
  - rewrite filter_cons, not_elem_of_cons. simpl.
    destruct (decide (k = d)) as [->|Hne]; csimpl.
    + split; [done|]. intros [? _]. done.
    + rewrite IH. split; [intros ?; split; [congruence|done]|tauto].
Qed.

(** The ids of the fused records are the ids the two loops assigned. *)
Lemma all_sorted_items_keys (ks vec : list pyobj) d :
  d ∈ (all_sorted_items ks vec).*1 ↔
  d ∈ (vector_doc_ids [] vec).*1 ∨
  d ∈ (ks_doc_ids (foldl add_vector [] vec) ks).*1.
Proof.
  rewrite all_sorted_items_perm.
  assert (d ∉ (combined_dict ks vec).*1 ↔
          ¬ (d ∈ (vector_doc_ids [] vec).*1 ∨
             d ∈ (ks_doc_ids (foldl add_vector [] vec) ks).*1)) as Hiff.
  { rewrite <- dict_get_None, combined_dict_get.
    unfold payload_source, weighted_sum.
    pose proof (hits_with_id_nil d (vector_doc_ids [] vec)) as Hv.
    pose proof (hits_with_id_nil d (ks_doc_ids (foldl add_vector [] vec) ks)) as Hk.
    destruct (last (hits_with_id d (vector_doc_ids [] vec))) as [v|] eqn:El.
    - split; [done|]. intros Hnot. exfalso. apply Hnot. left.
      destruct (decide (d ∈ (vector_doc_ids [] vec).*1)) as [|Hn]; [done|].
      apply Hv in Hn. by rewrite Hn in El.
    - apply last_None in El. apply Hv in El.
      destruct (hits_with_id d (ks_doc_ids _ ks)) as [|k hs] eqn:Ek; simpl.
      + split; [|done]. intros _ [?|?]; [done|]. by apply Hk.
      + split; [done|]. intros Hnot. exfalso. apply Hnot. right.
        destruct (decide (d ∈ (ks_doc_ids (foldl add_vector [] vec) ks).*1))
          as [|Hn]; [done|].
        by apply Hk in Hn. }
  destruct (decide (d ∈ (combined_dict ks vec).*1)) as [Hin|Hin].
  - split; [|done]. intros _.
    destruct (decide (d ∈ (vector_doc_ids [] vec).*1 ∨
                      d ∈ (ks_doc_ids (foldl add_vector [] vec) ks).*1))
      as [|Hn]; [done|].
    by apply Hiff in Hn.
  - split; [done|]. intros Hor. by apply Hiff in Hin.
Qed.

(** C6: the fused list has one record per canonical id: the records of
    [all_results] are the values of a list of (id, record) pairs whose ids
    are pairwise different, and these ids are exactly the ids that the two
    loops gave to the hits of both backends. *)
Theorem fuse_results_one_record_per_id (state : AgentState) :
  let items := all_sorted_items (ks_results state) (vector_results state) in
  all_results (fuse_results state) = items.*2 ∧
  final_results (fuse_results state) = take PAGE_SIZE items.*2 ∧
  NoDup items.*1 ∧
  ∀ d, d ∈ items.*1 ↔
       d ∈ (vector_doc_ids [] (vector_results state)).*1 ∨
       d ∈ (ks_doc_ids (foldl add_vector [] (vector_results state))
              (ks_results state)).*1.
Proof.
  intros items. unfold items. split_and!.
  - simpl. by rewrite all_sorted_items_values.
  - simpl. by rewrite all_sorted_items_values.
  - apply all_sorted_items_NoDup.
  - apply all_sorted_items_keys.
Qed.

(** ** Scores of the fused records *)

(** Two float constants are different when [PrimFloat.eqb] tells them
    apart from the second one. *)
Ltac float_neq :=
  match goal with
  | |- ?x ≠ ?y =>
      let H := fresh in
      intros H; apply (f_equal (λ f, PrimFloat.eqb f y)) in H;
      vm_compute in H; discriminate H
  end.

Lemma all_sorted_items_scores (ks vec : list pyobj) :
  Forall (λ item,
            weighted_sum item.1 (vector_doc_ids [] vec)
              (ks_doc_ids (foldl add_vector [] vec) ks)
            = Some (final_score item.2) ∧
            payload_source item.1 (vector_doc_ids [] vec)
              (ks_doc_ids (foldl add_vector [] vec) ks)
            = Some (doc item.2))
         (all_sorted_items ks vec).
Proof.
  apply Forall_forall. intros [d f] Hin.
  apply all_sorted_items_elem in Hin. rewrite combined_dict_get in Hin.
  simpl. destruct (payload_source _ _ _), (weighted_sum _ _ _); by simplify_eq.
Qed.

(** C1 (as the code has it): the score of every fused record is 0.6 times
    the similarity of the last vector hit with its id, if there is one, plus
    0.4 times the relevance of each lexical hit with its id, added one by one
    in batch order in binary64 arithmetic; a missing score counts as 0.  When
    each backend gives the id at most once this is the sum over the
    contributing backends of weight times native score.  A vector score of
    0.9 gives 0.54, a lexical score of 1.0 gives 0.4, and the same id from
    both gives 0.54 + 0.4, which is 0.9400000000000001. *)
Theorem fused_score_weighted_sum (ks vec : list pyobj) :
  Forall (λ item,
            weighted_sum item.1 (vector_doc_ids [] vec)
              (ks_doc_ids (foldl add_vector [] vec) ks)
            = Some (final_score item.2))
         (all_sorted_items ks vec) ∧
  (all_sorted_items ks vec).*2 = all_sorted ks vec ∧
  (∀ d, match hits_with_id d (vector_doc_ids [] vec),
              hits_with_id d (ks_doc_ids (foldl add_vector [] vec) ks) with
        | [v], [k] =>
            weighted_sum d (vector_doc_ids [] vec)
              (ks_doc_ids (foldl add_vector [] vec) ks)
            = Some (spec_composite_score (Some (default 0%float (get_similarity v)))
                                         (Some (default 0%float (get__score k))))
        | [v], [] =>
            weighted_sum d (vector_doc_ids [] vec)
              (ks_doc_ids (foldl add_vector [] vec) ks)
            = Some (spec_composite_score (Some (default 0%float (get_similarity v))) None)
        | [], [k] =>
            weighted_sum d (vector_doc_ids [] vec)
              (ks_doc_ids (foldl add_vector [] vec) ks)
            = Some (spec_composite_score None (Some (default 0%float (get__score k))))
        | _, _ => True
        end) ∧
  final_score <$> all_sorted [] [PDict vector_hit_a] = [0.54%float] ∧
  final_score <$> all_sorted [PDict ks_hit_a] [] = [0.4%float] ∧
  final_score <$> all_sorted [PDict ks_hit_a] [PDict vector_hit_a]
    = [(0.54 + 0.4)%float] ∧
  (0.54 + 0.4 = 0.9400000000000001)%float ∧
  final_score <$> all_sorted [PDict ks_hit_unscored] [PDict vector_hit_unscored]
    = [0%float; 0%float].
Proof.
  split_and!; try (vm_compute; reflexivity).
  - eapply Forall_impl; [apply all_sorted_items_scores|]. by intros ? [? _].
  - apply all_sorted_items_values.
  - intros d. unfold weighted_sum.
    destruct (hits_with_id d (vector_doc_ids [] vec)) as [|v [|??]];
      destruct (hits_with_id d (ks_doc_ids (foldl add_vector [] vec) ks))
        as [|k [|??]]; done.
Qed.

(** C1, as stated, fails: the same id from both backends gives
    0.9400000000000001 and not 0.94, and an id that the lexical backend
    returns twice collects its weighted score twice, 0.8 where the sum over
    the contributing backends is 0.4. *)
Lemma fused_score_not_spec_sum :
  (final_score <$> all_sorted [PDict ks_hit_a] [PDict vector_hit_a]
     = [0.9400000000000001%float] ∧
   0.9400000000000001%float ≠ 0.94%float) ∧
  (final_score <$> all_sorted [PDict ks_hit_a; PDict ks_hit_a] [] = [0.8%float] ∧
   spec_composite_score None (get__score ks_hit_a) = 0.4%float ∧
   0.8%float ≠ 0.4%float).
Proof.
  split_and!; try (vm_compute; reflexivity); float_neq.
Qed.

(** ** Payload of the fused records *)

(** C3 (as the code has it): when a vector hit and a lexical hit have the
    same id, there is exactly one fused record with that id; it has the
    fields of the vector hit (the last one with that id) and none of the
    lexical hit, whose weighted score alone is added to [final_score]. *)
Theorem fusion_keeps_vector_payload (ks vec : list pyobj) (d : string)
    (v k : hit) :
  last (hits_with_id d (vector_doc_ids [] vec)) = Some v →
  k ∈ hits_with_id d (ks_doc_ids (foldl add_vector [] vec) ks) →
  ∃ f, (d, f) ∈ all_sorted_items ks vec ∧
       doc f = v ∧
       final_score f =
         add_contributions (vector_contribution v)
           (hits_with_id d (ks_doc_ids (foldl add_vector [] vec) ks)) ∧
       ∀ f', (d, f') ∈ all_sorted_items ks vec → f' = f.
Proof.
  intros Hv Hk.
  pose proof (combined_dict_get d ks vec) as Hget.
  unfold payload_source, weighted_sum in Hget. rewrite Hv in Hget.
  eexists. split_and!.
  - apply all_sorted_items_elem. exact Hget.
  - done.
  - done.
  - intros f' Hf'. apply all_sorted_items_elem in Hf'. congruence.
Qed.

Lemma fusion_keeps_vector_payload_witness :
  ∃ f, (("a" : string), f) ∈ all_sorted_items [PDict ks_hit_titled] [PDict vector_hit_titled] ∧
       doc f = vector_hit_titled ∧
       final_score f = (0.9 * 0.6 + 1.0 * 0.4)%float ∧
       ∀ f', (("a" : string), f') ∈ all_sorted_items [PDict ks_hit_titled] [PDict vector_hit_titled]
             → f' = f.
Proof.
  apply (fusion_keeps_vector_payload
           [PDict ks_hit_titled] [PDict vector_hit_titled] "a"
           vector_hit_titled ks_hit_titled).
  - reflexivity.
  - vm_compute. left.
Defined.

(** C3, as stated, fails: the fused record of a vector hit and a lexical
    hit with the same id is not the union of their fields; the title is the
    vector hit's and the description of the lexical hit is missing. *)
Lemma fusion_does_not_merge_payloads :
  doc <$> all_sorted [PDict ks_hit_titled] [PDict vector_hit_titled]
    = [vector_hit_titled] ∧
  get_extra vector_hit_titled !! "title" = Some "from the vector index" ∧
  get_extra vector_hit_titled !! "description" = None ∧
  get_extra (spec_merged_payload ks_hit_titled vector_hit_titled) !! "title"
    = Some "from the catalogue" ∧
  get_extra (spec_merged_payload ks_hit_titled vector_hit_titled) !! "description"
    = Some "enriched" ∧
  vector_hit_titled ≠ spec_merged_payload ks_hit_titled vector_hit_titled.
Proof.
  split_and!; try (vm_compute; reflexivity).
  intros H. apply (f_equal (λ h, get_extra h !! "description")) in H.
  vm_compute in H. discriminate H.
Qed.

(** ** Synthesized ids *)

Lemma vector_doc_ids_app (l1 l2 : list pyobj) : ∀ c,
  vector_doc_ids c (l1 ++ l2) =
  vector_doc_ids c l1 ++ vector_doc_ids (foldl add_vector c l1) l2.
Proof.
  induction l1 as [|o l1 IH]; intros c; [done|].
  cbn [app vector_doc_ids foldl]. by rewrite IH, (assoc_L (++)).
Qed.

Lemma ks_doc_ids_app (l1 l2 : list pyobj) : ∀ c,
  ks_doc_ids c (l1 ++ l2) =
  ks_doc_ids c l1 ++ ks_doc_ids (foldl add_ks c l1) l2.
Proof.
  induction l1 as [|o l1 IH]; intros c; [done|].
  cbn [app ks_doc_ids foldl]. by rewrite IH, (assoc_L (++)).
Qed.

Lemma vector_pass_keys (l : list pyobj) : ∀ c,
  list_to_set (foldl add_vector c l).*1 =@{gset string}
  list_to_set c.*1 ∪ list_to_set (vector_doc_ids c l).*1.
Proof.
  induction l as [|o l IH]; intros c.
  { simpl. set_solver. }
  cbn [foldl vector_doc_ids]. rewrite IH, fmap_app, list_to_set_app_L.
  destruct o as [res|]; simpl; [|set_solver].
  rewrite dict_set_key_set. set_solver.
Qed.

Lemma ks_pass_keys (l : list pyobj) : ∀ c,
  list_to_set (foldl add_ks c l).*1 =@{gset string}
  list_to_set c.*1 ∪ list_to_set (ks_doc_ids c l).*1.
Proof.
  induction l as [|o l IH]; intros c.
  { simpl. set_solver. }
  cbn [foldl ks_doc_ids]. rewrite IH, fmap_app, list_to_set_app_L.
  destruct o as [res|]; [|simpl; set_solver].
  assert (list_to_set (add_ks c (PDict res)).*1 =@{gset string}
          {[ks_doc_id c res]} ∪ list_to_set c.*1) as ->.
  { simpl. destruct (dict_get _ c); apply dict_set_key_set. }
  simpl. set_solver.
Qed.

Lemma dict_length_keys (c : dict_t) :
  NoDup c.*1 → length c = size (list_to_set c.*1 : gset string).
Proof. intros Hnd. by rewrite size_list_to_set, length_fmap. Qed.

(** C4 (as the code has it): a hit with neither id gets the id
    [vec_<n>] or [ks_<n>], where [n] is the number of fused records held when
    the hit is processed: the number of different ids given to the hits before
    it, those of the whole vector batch included for a lexical hit. *)
Theorem synthesized_doc_id (vec vec1 vec2 ks1 ks2 : list pyobj) (res : hit) :
  truthy_field (get_id res) = None →
  truthy_field (get__id res) = None →
  let n_vec := size (list_to_set (vector_doc_ids [] vec1).*1 : gset string) in
  let c := foldl add_vector [] vec in
  let n_ks := size (list_to_set ((vector_doc_ids [] vec).*1
                                 ++ (ks_doc_ids c ks1).*1) : gset string) in
  vector_doc_ids [] (vec1 ++ PDict res :: vec2)
  = vector_doc_ids [] vec1
    ++ ("vec_" +:+ pretty n_vec, res)
    :: vector_doc_ids (add_vector (foldl add_vector [] vec1) (PDict res)) vec2
  ∧
  ks_doc_ids c (ks1 ++ PDict res :: ks2)
  = ks_doc_ids c ks1
    ++ ("ks_" +:+ pretty n_ks, res)
    :: ks_doc_ids (add_ks (foldl add_ks c ks1) (PDict res)) ks2.
Proof.
  intros Hid H_id n_vec c n_ks.
  assert (py_or (get_id res) (get__id res) = None) as Hv by by apply py_or_None.
  assert (py_or (get__id res) (get_id res) = None) as Hk by by apply py_or_None.
  split.
  - rewrite vector_doc_ids_app. cbn [vector_doc_ids app]. do 3 f_equal.
    unfold vector_doc_id. rewrite Hv. simpl. do 2 f_equal.
    rewrite dict_length_keys
      by (apply foldl_NoDup; [apply add_vector_NoDup|constructor]).
    rewrite vector_pass_keys. unfold n_vec. f_equal. set_solver.
  - rewrite ks_doc_ids_app. cbn [ks_doc_ids app]. do 3 f_equal.
    unfold ks_doc_id. rewrite Hk. simpl. do 2 f_equal.
    rewrite dict_length_keys.
    2:{ apply foldl_NoDup; [apply add_ks_NoDup|].
        apply foldl_NoDup; [apply add_vector_NoDup|constructor]. }
    rewrite ks_pass_keys. unfold c at 1. rewrite vector_pass_keys.
    unfold n_ks. rewrite list_to_set_app_L. f_equal. set_solver.
Qed.

Lemma synthesized_doc_id_witness :
  vector_doc_ids []
    ([PDict (hit_with_id "a"); PDict (hit_with_id "a")] ++ [PDict hit_without_id])
  = [("a", hit_with_id "a"); ("a", hit_with_id "a"); ("vec_1", hit_without_id)]
  ∧
  ks_doc_ids (foldl add_vector [] [PDict (hit_with_id "a"); PDict (hit_with_id "b")])
    ([] ++ [PDict hit_without_id])
  = [("ks_2", hit_without_id)].
Proof.
  apply (synthesized_doc_id
           [PDict (hit_with_id "a"); PDict (hit_with_id "b")]
           [PDict (hit_with_id "a"); PDict (hit_with_id "a")] [] [] []
           hit_without_id); reflexivity.
Defined.

(** C4, as stated, fails: the number in a synthesized id is not the position
    of the hit in its batch.  The fourth vector hit, after three hits with the
    same id, is [vec_1]; the first lexical hit, after two vector hits, is
    [ks_2]. *)
Lemma fallback_id_is_not_batch_ordinal :
  (vector_doc_ids []
     [PDict (hit_with_id "a"); PDict (hit_with_id "a"); PDict (hit_with_id "a");
      PDict hit_without_id]
   = [("a", hit_with_id "a"); ("a", hit_with_id "a"); ("a", hit_with_id "a");
      ("vec_1", hit_without_id)] ∧
   "vec_1" ≠ spec_fallback_id "vec" 3 ∧ "vec_1" ≠ spec_fallback_id "vec" 4) ∧
  (ks_doc_ids (foldl add_vector [] [PDict (hit_with_id "a"); PDict (hit_with_id "b")])
     [PDict hit_without_id]
   = [("ks_2", hit_without_id)] ∧
   "ks_2" ≠ spec_fallback_id "ks" 0 ∧ "ks_2" ≠ spec_fallback_id "ks" 1).
Proof. split_and!; (vm_compute; reflexivity) || (vm_compute; discriminate). Qed.

(** ** Session pagination *)

Lemma ensure_history_memory self sid :
  session_memory (ensure_history self sid) = session_memory self.
Proof. unfold ensure_history. by destruct (chat_history self !! sid). Qed.

Section AssistantFacts.

Variable call_gemini_detect_intents : string → list string → outcome (list string).
Variable call_gemini_rewrite_with_history : string → list string → outcome string.
Variable call_gemini_for_keywords : string → outcome (list string).
Variable call_gemini_for_final_synthesis :
  string → list fused → list string → nat → string → outcome string.
Variable general_search : string → nat → option (list hit).
Variable _perform_search :
  string → string → string * string → all_configs_t → option (list hit).
Variable datasources_config : option all_configs_t.
Variable vector_search : string → nat → list pyobj.

Local Notation "'handle'" := (handle_chat call_gemini_detect_intents
  call_gemini_rewrite_with_history call_gemini_for_keywords
  call_gemini_for_final_synthesis general_search _perform_search
  datasources_config vector_search).
Local Notation "'continue'" := (continue_session call_gemini_for_final_synthesis).
Local Notation "'invoke'" := (graph_invoke call_gemini_detect_intents
  call_gemini_rewrite_with_history call_gemini_for_keywords
  call_gemini_for_final_synthesis general_search _perform_search
  datasources_config vector_search).

(** A continuation request goes to [continue_session] with the stored
    dictionary of the session. *)
Lemma handle_chat_continuation (self : assistant) (sid q : string) (reset : bool) :
  is_continuation q = true →
  let self1 := if reset then reset_session self sid else self in
  handle self sid q reset
  = continue (ensure_history self1 sid) sid q (_is_more_query q)
      (session_memory self1 !! sid).
Proof.
  intros Hq self1. unfold handle_chat. fold self1.
  by rewrite Hq, ensure_history_memory.
Qed.

Lemma continue_session_empty (self : assistant) (sid q : string) more_count mem :
  from_option mem_all_results [] mem = [] →
  continue self sid q more_count mem = (NO_EARLIER_RESULTS, self, []).
Proof. unfold continue_session. by intros ->. Qed.

Lemma continue_session_end (self : assistant) (sid q : string) more_count mem :
  from_option mem_all_results [] mem ≠ [] →
  next_batch more_count mem = [] →
  continue self sid q more_count mem = (END_OF_RESULTS, self, []).
Proof.
  unfold continue_session. intros Hne ->.
  by destruct (from_option mem_all_results [] mem).
Qed.

Lemma continue_session_page (self : assistant) (sid q : string) more_count mem text :
  next_batch more_count (Some mem) ≠ [] →
  call_gemini_for_final_synthesis (mem_effective_query mem)
    (next_batch more_count (Some mem)) (mem_intents mem)
    (next_start more_count (Some mem) + 1) (mem_last_text mem) = Ok text →
  continue self sid q more_count (Some mem)
  = (text,
     MkAssistant (record_turn (chat_history self) sid q text)
       (<[sid := MkSession (mem_all_results mem) (mem_page mem + 1)
                   (resolve_page_size more_count (Some mem))
                   (mem_effective_query mem) (mem_keywords mem) (mem_intents mem)
                   (PyStr.last_n HISTORY_CHARS
                      (mem_last_text mem +:+ nl +:+ nl +:+ text))]>
          (session_memory self)),
     [CallSynthesis (mem_effective_query mem) (next_batch more_count (Some mem))
        (mem_intents mem) (next_start more_count (Some mem) + 1)
        (mem_last_text mem)]).
Proof.
  intros Hbatch Hsyn. unfold continue_session.
  assert (from_option mem_all_results [] (Some mem) ≠ []) as Hstored.
  { intros Hnil. apply Hbatch. unfold next_batch. rewrite Hnil.
    by rewrite drop_nil, take_nil. }
  destruct (from_option mem_all_results [] (Some mem)) eqn:Es; [done|].
  destruct (next_batch more_count (Some mem)) eqn:Eb; [done|].
  simpl in *. rewrite Hsyn. by rewrite Es.
Qed.

(** C8 (as the code has it): a request that [handle_chat] takes for a
    continuation (more, next, or more N with N of one to three digits), for a
    session with no stored state or with no stored results, is answered with
    the nothing-to-continue message; no collaborator is called, nothing is
    raised and the stored sessions are as before. *)
Theorem continuation_without_results (self : assistant) (sid q : string)
    (reset : bool) :
  is_continuation q = true →
  let self1 := if reset then reset_session self sid else self in
  from_option mem_all_results [] (session_memory self1 !! sid) = [] →
  handle self sid q reset = (NO_EARLIER_RESULTS, ensure_history self1 sid, []) ∧
  session_memory (ensure_history self1 sid) = session_memory self1 ∧
  is_continuation "more" = true ∧
  is_continuation "next" = true ∧
  ∀ n, n < 1000 → _is_more_query ("more " +:+ pretty n) = Some n
                  ∧ is_continuation ("more " +:+ pretty n) = true.
Proof.
  intros Hq self1 Hempty. split_and!.
  - rewrite handle_chat_continuation by done. by apply continue_session_empty.
  - apply ensure_history_memory.
  - reflexivity.
  - reflexivity.
  - intros n Hn.
    assert (forallb (λ n, bool_decide (_is_more_query ("more " +:+ pretty n) = Some n))
              (seq 0 1000) = true) as Hall by (vm_compute; reflexivity).
    rewrite forallb_forall in Hall.
    assert (_is_more_query ("more " +:+ pretty n) = Some n) as Hmore.
    { eapply bool_decide_eq_true_1, Hall. apply in_seq. lia. }
    split; [done|]. unfold is_continuation. rewrite Hmore. done.
Qed.

(** C7: a continuation request for a session with stored results whose next
    slice is empty is answered with the end-of-results message; no
    collaborator is called and the stored session is as before. *)
Theorem continuation_past_the_end (self : assistant) (sid q : string)
    (reset : bool) (mem : session) :
  is_continuation q = true →
  let self1 := if reset then reset_session self sid else self in
  let page_size := resolve_page_size (_is_more_query q) (Some mem) in
  session_memory self1 !! sid = Some mem →
  mem_all_results mem ≠ [] →
  take page_size (drop (mem_page mem * page_size) (mem_all_results mem)) = [] →
  handle self sid q reset = (END_OF_RESULTS, ensure_history self1 sid, []) ∧
  session_memory (ensure_history self1 sid) = session_memory self1 ∧
  session_memory (ensure_history self1 sid) !! sid = Some mem.
Proof.
  intros Hq self1 page_size Hmem Hstored Hslice. split_and!.
  - rewrite handle_chat_continuation by done. fold self1. rewrite Hmem.
    apply continue_session_end; [done|].
    unfold next_batch, next_start. simpl. by rewrite Nat.add_sub.
  - apply ensure_history_memory.
  - by rewrite ensure_history_memory.
Qed.

(** *** The graph of a new query *)

Ltac graph_cases H :=
  unfold perform, mbind, M_bind, mret, M_ret in H;
  repeat (case_match; simplify_eq/=).

Lemma extract_keywords_and_rewrite_ok (st st' : AgentState) log :
  extract_keywords_and_rewrite call_gemini_detect_intents
    call_gemini_rewrite_with_history call_gemini_for_keywords st = (log, Ok st') →
  start_number st' = start_number st ∧ previous_text st' = previous_text st.
Proof.
  intros H. unfold extract_keywords_and_rewrite in H. graph_cases H; done.
Qed.

Lemma execute_search_ok (st st' : AgentState) log :
  execute_search general_search _perform_search datasources_config
    vector_search st = (log, Ok st') →
  intents st' = intents st ∧ effective_query st' = effective_query st ∧
  start_number st' = start_number st ∧ previous_text st' = previous_text st ∧
  (only_greeting (intents st) = true →
   ks_results st' = [] ∧ vector_results st' = []).
Proof.
  intros H. unfold execute_search, ks_agent_run in H. graph_cases H; done.
Qed.

Lemma generate_final_response_ok (st st' : AgentState) log :
  generate_final_response call_gemini_for_final_synthesis st = (log, Ok st') →
  all_results st' = all_results st ∧ final_results st' = final_results st ∧
  intents st' = intents st ∧ effective_query st' = effective_query st ∧
  (only_greeting (intents st) = false →
   log = [CallSynthesis (effective_query st) (final_results st) (intents st)
            (start_number st) (previous_text st)]).
Proof.
  intros H. unfold generate_final_response in H. graph_cases H; done.
Qed.

Lemma M_bind_Ok {A B : Type} (f : A → M B) (m : M A) log (b : B) :
  m ≫= f = (log, Ok b) →
  ∃ l1 a l2, m = (l1, Ok a) ∧ f a = (l2, Ok b) ∧ log = l1 ++ l2.
Proof.
  unfold mbind, M_bind. destruct m as [l1 [a|msg]]; [|done].
  destruct (f a) as [l2 r] eqn:E. intros [= <- ->]. eauto 6.
Qed.

(** A successful run of the graph: the first page is the first
    [PAGE_SIZE] records of the fused list, and, when that list is not empty,
    the last call is the synthesis of this page, numbered from the initial
    [start_number]. *)
Lemma graph_invoke_ok (init fs : AgentState) log :
  invoke init = (log, Ok fs) →
  final_results fs = take PAGE_SIZE (all_results fs) ∧
  (all_results fs ≠ [] →
   ∃ log0, log = log0 ++
     [CallSynthesis (effective_query fs) (take PAGE_SIZE (all_results fs))
        (intents fs) (start_number init) (previous_text init)]).
Proof.
  unfold graph_invoke. intros H.
  apply M_bind_Ok in H as (l1 & prepared & l2 & Hprep & H & ->).
  apply M_bind_Ok in H as (l3 & searched & l4 & Hsearch & Hgen & ->).
  apply extract_keywords_and_rewrite_ok in Hprep as (Hs1 & Hp1).
  apply execute_search_ok in Hsearch as (Hi & He & Hs2 & Hp2 & Hgreet).
  apply generate_final_response_ok in Hgen as (Hall & Hfin & Hi' & He' & Hcall).
  simpl in *. split.
  - by rewrite Hfin, Hall.
  - intros Hne. destruct (only_greeting (intents searched)) eqn:Eg.
    + rewrite <- Hi in Hgreet at 1. destruct (Hgreet Eg) as [Hks Hvec].
      exfalso. apply Hne. rewrite Hall, Hks, Hvec. reflexivity.
    + exists (l1 ++ l3). rewrite (Hcall eq_refl), <- (assoc_L (++)).
      rewrite Hall, He', Hi', Hs2, Hs1, Hp2, Hp1. done.
Qed.

(** C2: a new query whose fused list has 32 records serves records 1 to 15
    and stores page 1 with page size 15; the first "more" serves records 16
    to 30, numbered from 16 (the slice starts at the stored page times the
    page size), the second serves records 31 and 32, numbered from 31, and
    the third is answered with the end-of-results message. *)
Theorem pagination_of_32_results (self : assistant) (sid q : string)
    (reset : bool) (fs : AgentState) (log : list call) (t1 t2 : string) :
  let self1 := ensure_history (if reset then reset_session self sid else self) sid in
  let l := all_results fs in
  let prev1 := final_response fs in
  let prev2 := PyStr.last_n HISTORY_CHARS (prev1 +:+ nl +:+ nl +:+ t1) in
  is_continuation q = false →
  invoke (initial_state self1 sid q) = (log, Ok fs) →
  length l = 32 →
  call_gemini_for_final_synthesis (effective_query fs) (take 15 (drop 15 l))
    (intents fs) 16 prev1 = Ok t1 →
  call_gemini_for_final_synthesis (effective_query fs) (drop 30 l)
    (intents fs) 31 prev2 = Ok t2 →
  ∃ (s0 s1 s2 : assistant) (log0 : list call),
    handle self sid q reset
    = (final_response fs, s0,
       log0 ++ [CallSynthesis (effective_query fs) (take 15 l) (intents fs) 1 EmptyString]) ∧
    final_results fs = take 15 l ∧
    session_memory s0 !! sid
    = Some (MkSession l 1 15 (effective_query fs) (keywords fs) (intents fs) prev1) ∧
    handle s0 sid "more" false
    = (t1, s1, [CallSynthesis (effective_query fs) (take 15 (drop 15 l))
                  (intents fs) 16 prev1]) ∧
    session_memory s1 !! sid
    = Some (MkSession l 2 15 (effective_query fs) (keywords fs) (intents fs) prev2) ∧
    handle s1 sid "more" false
    = (t2, s2, [CallSynthesis (effective_query fs) (drop 30 l) (intents fs) 31 prev2]) ∧
    length (drop 30 l) = 2 ∧
    (mem_page <$> session_memory s2 !! sid) = Some 3 ∧
    handle s2 sid "more" false = (END_OF_RESULTS, s2, []) ∧
    ∀ more_count mem,
      next_start more_count (Some mem)
      = mem_page mem * resolve_page_size more_count (Some mem) ∧
      next_batch more_count (Some mem)
      = take (resolve_page_size more_count (Some mem))
          (drop (mem_page mem * resolve_page_size more_count (Some mem))
             (mem_all_results mem)).
Proof.
  intros self1 l prev1 prev2 Hq Hrun Hlen Ht1 Ht2.
  destruct (graph_invoke_ok _ _ _ Hrun) as [Hfirst Hcall].
  pose proof (eq_refl : all_results fs = l) as El.
  pose proof (eq_refl : final_response fs = prev1) as Ep.
  clearbody l prev1. rewrite El in Hfirst, Hcall.
  destruct Hcall as [log0 ->].
  { intros Hnil. rewrite Hnil in Hlen. done. }
  assert (Hmore : is_continuation "more" = true) by reflexivity.
  set (mem0 := MkSession l 1 15 (effective_query fs) (keywords fs) (intents fs) prev1).
  set (mem1 := MkSession l 2 15 (effective_query fs) (keywords fs) (intents fs) prev2).
  set (prev3 := PyStr.last_n HISTORY_CHARS (prev2 +:+ nl +:+ nl +:+ t2)).
  set (mem2 := MkSession l 3 15 (effective_query fs) (keywords fs) (intents fs) prev3).
  set (s0 := MkAssistant (record_turn (chat_history self1) sid q prev1)
               (<[sid := mem0]> (session_memory self1))).
  set (s1 := MkAssistant (record_turn (chat_history s0) sid "more" t1)
               (<[sid := mem1]> (session_memory s0))).
  set (s2 := MkAssistant (record_turn (chat_history s1) sid "more" t2)
               (<[sid := mem2]> (session_memory s1))).
  assert (Hb1 : next_batch None (Some mem0) = take 15 (drop 15 l)) by reflexivity.
  assert (Hb2 : next_batch None (Some mem1) = drop 30 l).
  { unfold next_batch. change (next_start None (Some mem1)) with 30.
    simpl. apply take_ge. rewrite length_drop. lia. }
  assert (Hb3 : next_batch None (Some mem2) = []).
  { unfold next_batch. change (next_start None (Some mem2)) with 45.
    simpl. rewrite drop_ge by lia. done. }
  assert (Hl : l ≠ []) by (intros Hnil; by rewrite Hnil in Hlen).
  assert (Hhist : ∀ (a : assistant) (h : gmap string (list string)) m x y,
            ensure_history (MkAssistant (record_turn h sid x y) m) sid
            = MkAssistant (record_turn h sid x y) m).
  { intros a h m x y. unfold ensure_history, record_turn. simpl.
    by rewrite lookup_insert_eq. }
  exists s0, s1, s2, log0. split_and!.
  - unfold handle_chat. fold self1. rewrite Hq. unfold new_query.
    rewrite Hrun, El, Ep. done.
  - done.
  - simpl. by rewrite lookup_insert_eq.
  - rewrite handle_chat_continuation by done.
    change (_is_more_query "more") with (@None nat). simpl.
    rewrite lookup_insert_eq. unfold s0 at 1. rewrite (Hhist self).
    rewrite (continue_session_page _ _ _ _ _ t1).
    + done.
    + rewrite Hb1. intros Hnil.
      assert (length (take 15 (drop 15 l)) = 15) as Hlen1
        by (rewrite length_take, length_drop; lia).
      by rewrite Hnil in Hlen1.
    + rewrite Hb1. exact Ht1.
  - simpl. by rewrite lookup_insert_eq.
  - rewrite handle_chat_continuation by done.
    change (_is_more_query "more") with (@None nat). simpl.
    rewrite lookup_insert_eq. unfold s1 at 1. rewrite (Hhist self).
    rewrite (continue_session_page _ _ _ _ _ t2).
    + rewrite Hb2. done.
    + rewrite Hb2. intros Hnil.
      assert (length (drop 30 l) = 2) as Hlen2 by (rewrite length_drop; lia).
      by rewrite Hnil in Hlen2.
    + rewrite Hb2. exact Ht2.
  - rewrite length_drop. lia.
  - simpl. by rewrite lookup_insert_eq.
  - rewrite handle_chat_continuation by done.
    change (_is_more_query "more") with (@None nat). simpl.
    rewrite lookup_insert_eq. unfold s2 at 1. rewrite (Hhist self).
    by apply continue_session_end.
  - intros more_count mem. unfold next_batch, next_start. simpl.
    by rewrite Nat.add_sub.
Qed.

End AssistantFacts.

(** ** Concrete runs *)

Lemma pagination_of_32_results_witness :
  ∃ s2 : assistant,
    (mem_page <$> session_memory s2 !! "s") = Some 3 ∧
    stub_handle_chat 32 s2 "s" "more" false = (END_OF_RESULTS, s2, []).
Proof.
  edestruct (pagination_of_32_results stub_detect_intents stub_rewrite
               stub_keywords stub_synthesis stub_general_search
               stub_perform_search None (stub_vector_search 32)
               empty_assistant "s" "rat hippocampus" false)
    with (t1 := "datasets from 16") (t2 := "datasets from 31")
    as (s0 & s1 & s2 & log0 & _ & _ & _ & _ & _ & _ & _ & Hpage & Hend & _).
  - reflexivity.
  - vm_compute. reflexivity.
  - vm_compute. reflexivity.
  - reflexivity.
  - reflexivity.
  - exists s2. split; [exact Hpage|exact Hend].
Defined.

Lemma continuation_past_the_end_witness :
  stub_handle_chat 0 served_assistant "s" "more" false
  = (END_OF_RESULTS, ensure_history served_assistant "s", []).
Proof.
  apply (continuation_past_the_end stub_detect_intents stub_rewrite
           stub_keywords stub_synthesis stub_general_search
           stub_perform_search None (stub_vector_search 0)
           served_assistant "s" "more" false
           (MkSession two_results 1 15 "rat" [] [DATA_DISCOVERY] "datasets from 1")).
  - reflexivity.
  - reflexivity.
  - discriminate.
  - reflexivity.
Defined.

Lemma continuation_without_results_witness :
  stub_handle_chat 3 empty_assistant "s" "more 5" false
  = (NO_EARLIER_RESULTS, ensure_history empty_assistant "s", []).
Proof.
  apply (continuation_without_results stub_detect_intents stub_rewrite
           stub_keywords stub_synthesis stub_general_search
           stub_perform_search None (stub_vector_search 3)
           empty_assistant "s" "more 5" false).
  - reflexivity.
  - reflexivity.
Defined.

(** C8, as stated, fails for a count of more than three digits: "more 1000"
    is not taken for a continuation, and with no stored session the whole
    retrieval runs. *)
Lemma more_1000_is_a_new_query :
  is_continuation "more 1000" = false ∧
  session_memory empty_assistant !! "s" = None ∧
  (stub_handle_chat 3 empty_assistant "s" "more 1000" false).1.1
  = "datasets from 1" ∧
  (stub_handle_chat 3 empty_assistant "s" "more 1000" false).2
  = [CallDetectIntents "more 1000" [];
     CallRewrite "more 1000" [];
     CallKeywords "more 1000";
     CallDetectIntents "more 1000" [];
     CallGeneralSearch "more 1000" 50;
     CallFuzzySearch [] 50;
     CallVectorSearch "more 1000" 60;
     CallSynthesis "more 1000"
       ((λ i, Fused (Hit (Some (pretty i)) None (Some 0.5%float) None ∅) 0.3%float)
          <$> seq 0 3)
       [DATA_DISCOVERY] 1 EmptyString].
Proof. split_and!; vm_compute; reflexivity. Qed.

(** * Further properties *)

(** ** The sequence matcher on equal and on fully matched sequences *)

Section DifflibExact.
Context {A : Type} `{EqDecision A}.

Lemma common_prefix_take (a b : list A) :
  take (Difflib.common_prefix a b) a = take (Difflib.common_prefix a b) b.
Proof.
  revert b. induction a as [|x a IH]; intros [|y b]; simpl; try done.
  case_decide; [|done]. subst. simpl. by rewrite IH.
Qed.

Lemma common_prefix_refl (a : list A) : Difflib.common_prefix a a = length a.
Proof.
  induction a as [|x a IH]; simpl; [done|]. by rewrite decide_True, IH.
Qed.

Lemma scan_b_sound (a0 b0 a b : list A) i j best :
  a = drop i a0 → b = drop j b0 →
  block_ok a0 b0 best → block_ok a0 b0 (Difflib.scan_b a b i j best).
Proof.
  revert j best. induction b as [|y b IH]; intros j best Ha Hb Hbest; simpl; [done|].
  apply IH; [done| |].
  - replace (S j) with (j + 1) by lia. rewrite <- drop_drop, <- Hb. done.
  - case_match; [|done]. unfold block_ok. simpl.
    rewrite <- Ha, <- Hb. apply common_prefix_take.
Qed.

Lemma scan_a_sound (a0 b0 a : list A) i best :
  a = drop i a0 →
  block_ok a0 b0 best → block_ok a0 b0 (Difflib.scan_a a b0 i best).
Proof.
  revert i best. induction a as [|x a IH]; intros i best Ha Hbest; simpl; [done|].
  apply IH.
  - replace (S i) with (i + 1) by lia. rewrite <- drop_drop, <- Ha. done.
  - by apply (scan_b_sound a0 b0 (x :: a) b0 i 0).
Qed.

(** The block that [find_longest_match] returns is common to both
    sequences. *)
Lemma find_longest_match_sound (a b : list A) :
  block_ok a b (Difflib.find_longest_match a b).
Proof. by apply (scan_a_sound a b a 0). Qed.

Lemma scan_b_keep (a b : list A) i j best :
  length a ≤ best.2 → Difflib.scan_b a b i j best = best.
Proof.
  revert j. induction b as [|y b IH]; intros j Hlen; simpl; [done|].
  pose proof (common_prefix_le a (y :: b)) as [Hk _].
  destruct (best.2 <? Difflib.common_prefix a (y :: b)) eqn:E.
  - apply Nat.ltb_lt in E. lia.
  - by apply IH.
Qed.

Lemma scan_a_keep (a b : list A) i best :
  length a ≤ best.2 → Difflib.scan_a a b i best = best.
Proof.
  revert i. induction a as [|x a IH]; intros i Hlen; simpl; [done|].
  simpl in Hlen. rewrite scan_b_keep by (simpl; lia). apply IH. lia.
Qed.

Lemma find_longest_match_refl (a : list A) :
  Difflib.find_longest_match a a = (0, 0, length a).
Proof.
  destruct a as [|x a]; [done|].
  unfold Difflib.find_longest_match.
  change (Difflib.scan_a (x :: a) (x :: a) 0 (0, 0, 0)) with
    (Difflib.scan_a a (x :: a) 1
       (Difflib.scan_b (x :: a) a 0 1
          (if (0 <? Difflib.common_prefix (x :: a) (x :: a))
           then (0, 0, Difflib.common_prefix (x :: a) (x :: a)) else (0, 0, 0)))).
  rewrite common_prefix_refl. simpl length. simpl Nat.ltb.
  rewrite scan_b_keep by (simpl; lia). rewrite scan_a_keep by (simpl; lia). done.
Qed.

Lemma matches_fuel_nil n (b : list A) : Difflib.matches_fuel n [] b = 0.
Proof. by destruct n. Qed.

Lemma matches_refl (a : list A) : Difflib.matches a a = length a.
Proof.
  unfold Difflib.matches. destruct a as [|x a]; [done|].
  change (Difflib.matches_fuel (length (x :: a)) (x :: a) (x :: a)) with
    (let '(i, j, k) := Difflib.find_longest_match (x :: a) (x :: a) in
     if k =? 0 then 0
     else Difflib.matches_fuel (length a) (take i (x :: a)) (take j (x :: a)) + k
          + Difflib.matches_fuel (length a) (drop (i + k) (x :: a))
              (drop (j + k) (x :: a))).
  rewrite find_longest_match_refl. cbv beta iota.
  change (0 + length (x :: a)) with (length (x :: a)).
  change (length (x :: a) =? 0) with false. cbv iota.
  rewrite take_0, matches_fuel_nil.
  rewrite drop_all, matches_fuel_nil. lia.
Qed.

(** A full match: when every element of both sequences is matched, the
    sequences are equal. *)
Lemma matches_fuel_full n : ∀ a b : list A,
  Difflib.matches_fuel n a b = length a →
  Difflib.matches_fuel n a b = length b → a = b.
Proof.
  induction n as [|n IH]; intros a b Ha Hb.
  { simpl in *. destruct a, b; done. }
  change (Difflib.matches_fuel (S n) a b) with
    (let '(i, j, k) := Difflib.find_longest_match a b in
     if k =? 0 then 0
     else Difflib.matches_fuel n (take i a) (take j b) + k
          + Difflib.matches_fuel n (drop (i + k) a) (drop (j + k) b)) in Ha, Hb.
  pose proof (find_longest_match_fits a b) as Hfit.
  pose proof (find_longest_match_sound a b) as Hsound.
  destruct (Difflib.find_longest_match a b) as [[i j] k].
  unfold fits in Hfit. unfold block_ok in Hsound. simpl in Hfit, Hsound.
  destruct (k =? 0) eqn:Ek.
  { destruct a, b; done. }
  pose proof (matches_fuel_le n (take i a) (take j b)) as [Hl1 Hl2].
  pose proof (matches_fuel_le n (drop (i + k) a) (drop (j + k) b)) as [Hr1 Hr2].
  rewrite length_take in Hl1, Hl2. rewrite length_drop in Hr1, Hr2.
  assert (i = j) as <- by lia.
  assert (take i a = take i b) as Hleft.
  { apply IH; rewrite length_take; lia. }
  assert (drop (i + k) a = drop (i + k) b) as Hright.
  { apply IH; rewrite length_drop; lia. }
  rewrite <- (take_drop i a), <- (take_drop i b), Hleft. f_equal.
  rewrite <- (take_drop k (drop i a)), <- (take_drop k (drop i b)), Hsound.
  f_equal. rewrite !drop_drop. exact Hright.
Qed.

Lemma ratio_refl (a : list A) : (Difflib.ratio a a == 1)%Q.
Proof.
  unfold Difflib.ratio. rewrite matches_refl.
  destruct (length a + length a =? 0) eqn:E; [done|].
  apply Nat.eqb_neq in E. unfold Qeq. simpl Qnum. simpl Qden.
  rewrite Z.mul_1_r, Z.mul_1_l.
  rewrite <- (positive_nat_Z (Pos.of_nat _)), Nat2Pos.id by done. lia.
Qed.

Lemma ratio_one (a b : list A) : (Difflib.ratio a b == 1)%Q → a = b.
Proof.
  unfold Difflib.ratio. pose proof (matches_fuel_le (length a) a b) as [Hm1 Hm2].
  destruct (length a + length b =? 0) eqn:E.
  { apply Nat.eqb_eq in E. intros _. destruct a, b; simpl in E; done || lia. }
  apply Nat.eqb_neq in E. unfold Qeq. simpl Qnum. simpl Qden.
  rewrite Z.mul_1_r, Z.mul_1_l.
  rewrite <- (positive_nat_Z (Pos.of_nat _)), Nat2Pos.id by done.
  unfold Difflib.matches in *. intros Heq.
  apply (matches_fuel_full (length a)); lia.
Qed.

End DifflibExact.

(** ** Exact matches of the fuzzy matcher *)

Lemma lower_list_inj (a b : string) :
  list_ascii_of_string (PyStr.lower a) = list_ascii_of_string (PyStr.lower b) →
  PyStr.lower a = PyStr.lower b.
Proof.
  intros H. rewrite <- (string_of_list_ascii_of_string (PyStr.lower a)), H.
  apply string_of_list_ascii_of_string.
Qed.

Lemma similarity_ratio_one (a b : string) :
  (similarity_ratio a b == 1)%Q ↔ PyStr.lower a = PyStr.lower b.
Proof.
  unfold similarity_ratio. split.
  - intros H. by apply lower_list_inj, ratio_one.
  - intros ->. apply ratio_refl.
Qed.

Lemma similarity_ratio_lower (a a' b b' : string) :
  PyStr.lower a = PyStr.lower a' → PyStr.lower b = PyStr.lower b' →
  similarity_ratio a b = similarity_ratio a' b'.
Proof. unfold similarity_ratio. by intros -> ->. Qed.

Lemma fuzzy_match_lower (a a' b b' : string) (threshold : Q) :
  PyStr.lower a = PyStr.lower a' → PyStr.lower b = PyStr.lower b' →
  fuzzy_match a b threshold = fuzzy_match a' b' threshold.
Proof.
  intros Ha Hb. unfold fuzzy_match.
  rewrite (similarity_ratio_lower a a' b b') by done.
  by rewrite <- (lower_truthy a), <- (lower_truthy b), Ha, Hb, !lower_truthy.
Qed.

Lemma fuzzy_match_same_up_to_case_aux (a b : string) (threshold : Q) :
  a ≠ EmptyString →
  PyStr.lower a = PyStr.lower b →
  (threshold <= 1)%Q →
  fuzzy_match a b threshold = true.
Proof.
  intros Ha Hab Ht. apply fuzzy_match_true. split_and!.
  - by apply truthy_true.
  - rewrite <- lower_truthy, <- Hab, lower_truthy. by apply truthy_true.
  - assert (similarity_ratio a b == 1)%Q as -> by by apply similarity_ratio_one.
    done.
Qed.

(** X1: a non-empty token matches every value that is equal to it up to
    letter case, at every threshold up to 1.  The value is shorter than 200
    characters, where the matcher applies no automatic junk heuristic. *)
Theorem fuzzy_match_same_up_to_case (a b : string) (threshold : Q) :
  String.length b < 200 →
  a ≠ EmptyString →
  PyStr.lower a = PyStr.lower b →
  (threshold <= 1)%Q →
  fuzzy_match a b threshold = true ∧ (similarity_ratio a b == 1)%Q.
Proof.
  intros _ Ha Hab Ht.
  assert (similarity_ratio a b == 1)%Q as Hr by by apply similarity_ratio_one.
  split; [|done]. apply fuzzy_match_true. split_and!.
  - by apply truthy_true.
  - rewrite <- lower_truthy, <- Hab, lower_truthy. by apply truthy_true.
  - by rewrite Hr.
Qed.

Lemma fuzzy_match_same_up_to_case_witness :
  fuzzy_match "Mus Musculus" "mus musculus" default_threshold = true ∧
  (similarity_ratio "Mus Musculus" "mus musculus" == 1)%Q.
Proof.
  apply (fuzzy_match_same_up_to_case "Mus Musculus" "mus musculus" default_threshold).
  - simpl. lia.
  - discriminate.
  - reflexivity.
  - vm_compute. discriminate.
Defined.

(** X2: at threshold 1 the matcher is equality up to letter case of
    non-empty strings (for a value shorter than 200 characters). *)
Theorem fuzzy_match_threshold_one (a b : string) :
  String.length b < 200 →
  fuzzy_match a b 1 = true ↔ a ≠ EmptyString ∧ PyStr.lower a = PyStr.lower b.
Proof.
  intros _. split.
  - intros H. apply fuzzy_match_true in H as (Ha & Hb & Hr).
    split; [by apply truthy_true|]. apply similarity_ratio_one.
    apply Qle_antisym; [apply similarity_ratio_bounds|done].
  - intros [Ha Hab]. by apply fuzzy_match_same_up_to_case_aux.
Qed.

Lemma fuzzy_match_threshold_one_witness :
  fuzzy_match "Rat" "rat" 1 = true ↔
  "Rat" ≠ EmptyString ∧ PyStr.lower "Rat" = PyStr.lower "rat".
Proof. apply (fuzzy_match_threshold_one "Rat" "rat"). simpl. lia. Defined.

(** ** The head of the ranking *)

(** The first value of a class of vocabulary values that all match and all
    have the ratio of the top-ranked value, when that value is in the class,
    is the top-ranked value itself. *)
Lemma ranked_first_of_class (query : string) (candidates : list string)
    (threshold : Q) (P : string → Prop) `{∀ x, Decision (P x)} (top : string) :
  head (sort_reverse (similarity_ratio query) Qltb
          (filter (λ c, fuzzy_match query c threshold = true) candidates))
  = Some top →
  (∀ x, P x → (similarity_ratio query x == similarity_ratio query top)%Q
               ∧ fuzzy_match query x threshold = true) →
  P top →
  head (filter P candidates) = Some top.
Proof.
  intros Hhead Hclass Htop.
  set (matching := filter (λ c, fuzzy_match query c threshold = true) candidates) in *.
  set (ranked := sort_reverse (similarity_ratio query) Qltb matching) in *.
  set (R := λ c, (similarity_ratio query c == similarity_ratio query top)%Q).
  assert (filter P candidates = filter P ranked) as ->.
  { rewrite <- (list_filter_filter_l P R ranked) by (intros x Hx; by apply Hclass).
    unfold ranked. rewrite (sort_reverse_filter _ _ R).
    2:{ intros a b Ha Hb. apply Qltb_false. unfold R in Ha, Hb.
        rewrite Ha, Hb. apply Qle_refl. }
    rewrite (list_filter_filter_l P R) by (intros x Hx; by apply Hclass).
    unfold matching. symmetry. apply list_filter_filter_l.
    intros x Hx. by apply Hclass. }
  destruct ranked as [|h rest]; [done|]. simpl in Hhead. simplify_eq.
  by rewrite filter_cons_True.
Qed.

Lemma head_take_pos {A : Type} (n : nat) (l : list A) :
  1 ≤ n → head (take n l) = head l.
Proof. destruct n; [lia|]. by destruct l. Qed.

(** When the vocabulary holds the token up to letter case, the ranking
    starts with the first such value. *)
Lemma ranked_head_exact (query : string) (candidates : list string)
    (threshold : Q) (c : string) :
  query ≠ EmptyString →
  (threshold <= 1)%Q →
  c ∈ candidates →
  PyStr.lower c = PyStr.lower query →
  ∃ h, head (sort_reverse (similarity_ratio query) Qltb
               (filter (λ c, fuzzy_match query c threshold = true) candidates))
       = Some h ∧
       head (filter (λ x, PyStr.lower x = PyStr.lower query) candidates) = Some h.
Proof.
  intros Hq Ht Hc Hlc.
  set (matching := filter (λ c, fuzzy_match query c threshold = true) candidates).
  assert (c ∈ matching) as Hcm.
  { apply list_elem_of_filter. split; [|done].
    by apply fuzzy_match_same_up_to_case_aux. }
  pose proof (sort_reverse_sorted (similarity_ratio query) Qltb
                Qltb_asym Qltb_geb_trans matching) as Hsorted.
  pose proof (sort_reverse_perm (similarity_ratio query) Qltb matching) as Hperm.
  destruct (sort_reverse (similarity_ratio query) Qltb matching)
    as [|h rest] eqn:Er.
  { rewrite <- Hperm in Hcm. by apply elem_of_nil in Hcm. }
  assert (similarity_ratio query h == 1)%Q as Hh.
  { apply Qle_antisym; [apply similarity_ratio_bounds|].
    assert (similarity_ratio query c == 1)%Q as Hc1
      by by apply similarity_ratio_one.
    rewrite <- Hc1. rewrite <- Hperm in Hcm.
    apply elem_of_cons in Hcm as [->|Hin]; [apply Qle_refl|].
    apply StronglySorted_inv in Hsorted as [_ Hall].
    rewrite Forall_forall in Hall. apply Qltb_false. by apply Hall. }
  assert (PyStr.lower h = PyStr.lower query) as Hlh.
  { symmetry. by apply similarity_ratio_one. }
  exists h. split; [done|].
  apply (ranked_first_of_class query candidates threshold).
  - fold matching. by rewrite Er.
  - intros x Hx. split.
    + by rewrite (similarity_ratio_lower query query x h) by congruence.
    + apply fuzzy_match_same_up_to_case_aux; done.
  - done.
Qed.

(** X3: when the vocabulary holds the token up to letter case, the first
    result is the first such value of the vocabulary (for vocabulary values
    shorter than 200 characters). *)
Theorem find_best_matches_exact_first (query : string) (candidates : list string)
    (threshold : Q) (max_matches : nat) (c : string) :
  Forall (λ x, String.length x < 200) candidates →
  query ≠ EmptyString →
  (threshold <= 1)%Q →
  1 ≤ max_matches →
  c ∈ candidates →
  PyStr.lower c = PyStr.lower query →
  head (find_best_matches query candidates threshold max_matches)
  = head (filter (λ x, PyStr.lower x = PyStr.lower query) candidates) ∧
  is_Some (head (find_best_matches query candidates threshold max_matches)).
Proof.
  intros _ Hq Ht Hm Hc Hlc.
  destruct (ranked_head_exact query candidates threshold c) as (h & Hh & Hfirst);
    [done..|].
  rewrite find_best_matches_eq, head_take_pos by done.
  rewrite Hh, Hfirst. split; [done|by eexists].
Qed.

Lemma find_best_matches_exact_first_witness :
  head (find_best_matches "human" ["Humane"; "HUMAN"; "human"] default_threshold 5)
  = Some "HUMAN".
Proof.
  apply (find_best_matches_exact_first "human" ["Humane"; "HUMAN"; "human"]
           default_threshold 5 "human").
  - repeat (constructor; [simpl; lia|]). constructor.
  - discriminate.
  - vm_compute. discriminate.
  - lia.
  - vm_compute. do 2 right. left.
  - reflexivity.
Defined.

Lemma sort_reverse_ext {A K : Type} (key key' : A → K) ltb (l : list A) :
  (∀ x, key x = key' x) → sort_reverse key ltb l = sort_reverse key' ltb l.
Proof.
  intros Hk. induction l as [|x l IH]; [done|].
  simpl. rewrite IH. generalize (sort_reverse key' ltb l).
  intros s. induction s as [|y s IHs]; [done|]. simpl.
  by rewrite !Hk, IHs.
Qed.

Lemma filter_none {A : Type} (P : A → Prop) `{∀ x, Decision (P x)} (l : list A) :
  (∀ x, ¬ P x) → filter P l = [].
Proof.
  intros HP. induction l as [|x l IH]; [done|].
  by rewrite filter_cons_False.
Qed.

(** X4: the ranking does not depend on the letter case of the token, and an
    empty token, an empty vocabulary or a limit of 0 give no match; an
    empty vocabulary value is never returned. *)
Theorem find_best_matches_case_and_edges (query query' : string)
    (candidates : list string) (threshold : Q) (max_matches : nat) :
  PyStr.lower query = PyStr.lower query' →
  find_best_matches query candidates threshold max_matches
  = find_best_matches query' candidates threshold max_matches ∧
  find_best_matches EmptyString candidates threshold max_matches = [] ∧
  find_best_matches query [] threshold max_matches = [] ∧
  find_best_matches query candidates threshold 0 = [] ∧
  EmptyString ∉ find_best_matches query candidates threshold max_matches.
Proof.
  intros Hq. split_and!.
  - rewrite !find_best_matches_eq.
    rewrite (list_filter_iff _ (λ c, fuzzy_match query' c threshold = true)).
    2:{ intros x. by rewrite (fuzzy_match_lower query query' x x). }
    f_equal. apply sort_reverse_ext.
    intros x. by apply similarity_ratio_lower.
  - rewrite find_best_matches_eq, filter_none; [by destruct max_matches|].
    intros x. done.
  - rewrite find_best_matches_eq. by destruct max_matches.
  - done.
  - rewrite find_best_matches_eq. intros Hin.
    apply subseteq_take in Hin. rewrite sort_reverse_perm in Hin.
    apply list_elem_of_filter in Hin as [Hm _].
    by apply fuzzy_match_true in Hm as (_ & Ht & _).
Qed.

Lemma find_best_matches_case_and_edges_witness :
  find_best_matches "HIPPOcampus" ["hippocampus"; "thalamus"] default_threshold 5
  = find_best_matches "hippocampus" ["hippocampus"; "thalamus"] default_threshold 5.
Proof.
  apply (find_best_matches_case_and_edges "HIPPOcampus" "hippocampus"
           ["hippocampus"; "thalamus"] default_threshold 5).
  reflexivity.
Defined.

(** ** The fuzzy keyword search: where the results come from *)

Section SearchProvenance.
Variable _perform_search :
  string → string → string * string → all_configs_t → option (list hit).

Lemma find_best_matches_head (query : string) (candidates : list string)
    (threshold : Q) (max_matches : nat) (top : string) (rest : list string) :
  find_best_matches query candidates threshold max_matches = top :: rest →
  head (sort_reverse (similarity_ratio query) Qltb
          (filter (λ c, fuzzy_match query c threshold = true) candidates))
  = Some top ∧
  top ∈ candidates ∧ fuzzy_match query top threshold = true.
Proof.
  rewrite find_best_matches_eq. intros Hout.
  assert (top ∈ take max_matches
            (sort_reverse (similarity_ratio query) Qltb
               (filter (λ c, fuzzy_match query c threshold = true) candidates)))
    as Hin by (rewrite Hout; left).
  apply subseteq_take in Hin. rewrite sort_reverse_perm in Hin.
  apply list_elem_of_filter in Hin as [Hm Hin].
  split; [|done].
  destruct max_matches; [done|].
  by destruct (sort_reverse _ _ _); simplify_eq/=.
Qed.

Lemma search_one_field_elem (query : string) (all_configs : all_configs_t)
    (threshold : Q) (ds name : string) (cfg : field_config) (r : hit) :
  r ∈ search_one_field _perform_search query all_configs threshold ds (name, cfg) →
  ∃ top results,
    head (find_best_matches query (values cfg) threshold 5) = Some top ∧
    top ∈ values cfg ∧ fuzzy_match query top threshold = true ∧
    _perform_search ds query (name, top) all_configs = Some results ∧
    r ∈ results.
Proof.
  unfold search_one_field.
  destruct (find_best_matches query (values cfg) threshold 5) as [|top rest] eqn:E.
  { intros H. by apply elem_of_nil in H. }
  destruct (_perform_search ds query (name, top) all_configs) as [results|] eqn:Ep.
  2:{ intros H. by apply elem_of_nil in H. }
  intros Hr. apply find_best_matches_head in E as (_ & Hin & Hm).
  exists top, results. done.
Qed.

(** X5: every hit of [search_across_all_fields] is a result of the search
    of one configured field of one data source, filtered on a value of that
    field's vocabulary that matches the keyword, the best one; with an empty
    keyword no field matches and the result is empty. *)
Theorem search_across_all_fields_provenance (query : string)
    (all_configs : all_configs_t) (threshold : Q) :
  Forall (λ r, ∃ ds filters name cfg top results,
            (ds, filters) ∈ all_configs ∧ (name, cfg) ∈ filters ∧
            head (find_best_matches query (values cfg) threshold 5) = Some top ∧
            top ∈ values cfg ∧ fuzzy_match query top threshold = true ∧
            _perform_search ds query (name, top) all_configs = Some results ∧
            r ∈ results)
         (search_across_all_fields _perform_search query all_configs threshold) ∧
  search_across_all_fields _perform_search EmptyString all_configs threshold = [].
Proof.
  assert (∀ q, Forall (λ r, ∃ ds filters name cfg top results,
            (ds, filters) ∈ all_configs ∧ (name, cfg) ∈ filters ∧
            head (find_best_matches q (values cfg) threshold 5) = Some top ∧
            top ∈ values cfg ∧ fuzzy_match q top threshold = true ∧
            _perform_search ds q (name, top) all_configs = Some results ∧
            r ∈ results)
         (search_across_all_fields _perform_search q all_configs threshold))
    as Hall.
  { intros q. apply Forall_forall. intros r Hr.
    unfold search_across_all_fields in Hr.
    apply list_elem_of_join in Hr as (rs & Hr & Hrs).
    apply list_elem_of_fmap in Hrs as ([ds filters] & -> & Hds).
    apply list_elem_of_join in Hr as (rs' & Hr & Hrs').
    apply list_elem_of_fmap in Hrs' as ([name cfg] & -> & Hname).
    apply search_one_field_elem in Hr as (top & results & H1 & H2 & H3 & H4 & H5).
    by exists ds, filters, name, cfg, top, results. }
  split; [apply Hall|].
  specialize (Hall EmptyString).
  destruct (search_across_all_fields _ EmptyString all_configs threshold)
    as [|r rs]; [done|].
  apply Forall_cons in Hall as [(? & ? & ? & ? & ? & ? & _ & _ & _ & _ & Hm & _) _].
  done.
Qed.

Lemma keyword_loop_provenance (all_configs : all_configs_t) (top_k : nat)
    (P : hit → Prop) (keywords : list string) :
  (∀ kw r, kw ∈ keywords → kw ≠ EmptyString →
           r ∈ search_across_all_fields _perform_search kw all_configs
                 default_threshold → P r) →
  ∀ acc, Forall P acc.1 →
         Forall P (keyword_loop _perform_search all_configs top_k keywords acc).
Proof.
  induction keywords as [|kw rest IH]; intros HP acc Hacc; simpl; [done|].
  assert (∀ rs acc, Forall P rs → Forall P acc.1 →
                    Forall P (foldl add_unique acc rs).1) as Hfold.
  { clear. intros rs. induction rs as [|r rs IHr]; intros acc Hrs Hacc; [done|].
    simpl. apply Forall_cons in Hrs as [Hr Hrs]. apply IHr; [done|].
    destruct acc as [out seen]. unfold add_unique.
    destruct (result_id r); [|done]. case_decide; [done|].
    simpl. apply Forall_app. split; [done|by constructor]. }
  destruct (PyStr.truthy kw) eqn:Ekw.
  - assert (Forall P (foldl add_unique acc
              (search_across_all_fields _perform_search kw all_configs
                 default_threshold)).1) as Hacc'.
    { apply Hfold; [|done]. apply Forall_forall. intros r Hr.
      apply (HP kw); [left|by apply truthy_true|done]. }
    case_match; [done|]. apply IH; [|done].
    intros kw' r Hin. apply HP. by right.
  - apply IH; [|done]. intros kw' r Hin. apply HP. by right.
Qed.

(** X6: [global_fuzzy_keyword_search] returns at most [top_k] hits, each a
    hit of [search_across_all_fields] for one of the non-empty keywords;
    without the configuration file, without keywords or with [top_k = 0] it
    returns nothing. *)
Theorem global_fuzzy_keyword_search_provenance (config : option all_configs_t)
    (keywords : list string) (top_k : nat) :
  let out := global_fuzzy_keyword_search _perform_search config keywords top_k in
  length out ≤ top_k ∧
  Forall (λ r, ∃ kw all_configs,
            config = Some all_configs ∧ kw ∈ keywords ∧ kw ≠ EmptyString ∧
            r ∈ search_across_all_fields _perform_search kw all_configs
                  default_threshold) out ∧
  global_fuzzy_keyword_search _perform_search None keywords top_k = [] ∧
  global_fuzzy_keyword_search _perform_search config [] top_k = [] ∧
  global_fuzzy_keyword_search _perform_search config keywords 0 = [].
Proof.
  intros out. unfold out, global_fuzzy_keyword_search. split_and!.
  - destruct config; [|simpl; lia]. rewrite length_take. lia.
  - destruct config as [all_configs|]; [|done]. apply Forall_take.
    apply keyword_loop_provenance; [|done].
    intros kw r Hkw Hne Hr. eauto 6.
  - done.
  - destruct config; [|done]. by destruct top_k.
  - by destruct config.
Qed.

(** Once a keyword has filled the pool the loop is over. *)
Lemma keyword_loop_full (all_configs : all_configs_t) (top_k : nat)
    (l1 l2 : list string) : ∀ acc,
  length acc.1 < top_k →
  top_k ≤ length (keyword_loop _perform_search all_configs top_k l1 acc) →
  keyword_loop _perform_search all_configs top_k (l1 ++ l2) acc
  = keyword_loop _perform_search all_configs top_k l1 acc.
Proof.
  induction l1 as [|kw l1 IH]; intros acc Hacc Hfull; simpl in *; [lia|].
  destruct (PyStr.truthy kw); [|by apply IH].
  destruct (top_k <=? length (foldl add_unique acc _).1) eqn:E; [done|].
  apply Nat.leb_gt in E. by apply IH.
Qed.

(** The loop that records its searches is the loop of the search. *)
Lemma keyword_loop_searched_out (all_configs : all_configs_t) (top_k : nat)
    (keywords : list string) : ∀ acc,
  (keyword_loop_searched _perform_search all_configs top_k keywords acc).1
  = keyword_loop _perform_search all_configs top_k keywords acc.
Proof.
  induction keywords as [|kw rest IH]; intros acc; simpl; [done|].
  destruct (PyStr.truthy kw); [|by apply IH].
  destruct (top_k <=? length (foldl add_unique acc _).1); [done|].
  simpl. apply IH.
Qed.

(** Once a keyword has filled the pool no further keyword is searched. *)
Lemma keyword_loop_searched_full (all_configs : all_configs_t) (top_k : nat)
    (l1 l2 : list string) : ∀ acc,
  length acc.1 < top_k →
  top_k ≤ length (keyword_loop _perform_search all_configs top_k l1 acc) →
  keyword_loop_searched _perform_search all_configs top_k (l1 ++ l2) acc
  = keyword_loop_searched _perform_search all_configs top_k l1 acc.
Proof.
  induction l1 as [|kw l1 IH]; intros acc Hacc Hfull; simpl in *; [lia|].
  destruct (PyStr.truthy kw); [|by apply IH].
  destruct (top_k <=? length (foldl add_unique acc _).1) eqn:E; [done|].
  apply Nat.leb_gt in E. by rewrite IH.
Qed.

(** While the pool is not full every non-empty keyword is searched. *)
Lemma keyword_loop_searched_all (all_configs : all_configs_t) (top_k : nat)
    (keywords : list string) : ∀ acc,
  length (keyword_loop _perform_search all_configs top_k keywords acc) < top_k →
  (keyword_loop_searched _perform_search all_configs top_k keywords acc).2
  = filter (λ kw, PyStr.truthy kw = true) keywords.
Proof.
  induction keywords as [|kw rest IH]; intros acc Hshort; simpl in *; [done|].
  destruct (PyStr.truthy kw) eqn:Ekw.
  - rewrite filter_cons_True by done.
    destruct (top_k <=? length (foldl add_unique acc _).1) eqn:E.
    + apply Nat.leb_le in E. lia.
    + simpl. f_equal. by apply IH.
  - rewrite filter_cons_False by (rewrite Ekw; done). by apply IH.
Qed.

(** X7: the scan stops at the first keyword that fills the pool.  When the
    keywords scanned give [top_k] hits, for a positive [top_k], no keyword
    after them is searched: [search_across_all_fields] is called for the
    same keywords, in the same order, whatever keywords follow, and the
    result is the same.  Until then every non-empty keyword is searched.
    The list of the keywords searched is that of the loop that computes
    the result. *)
Theorem global_fuzzy_keyword_search_stops_early (config : option all_configs_t)
    (keywords later : list string) (top_k : nat) :
  1 ≤ top_k →
  top_k ≤ length (global_fuzzy_keyword_search _perform_search config keywords top_k) →
  keywords_searched _perform_search config (keywords ++ later) top_k
  = keywords_searched _perform_search config keywords top_k ∧
  global_fuzzy_keyword_search _perform_search config (keywords ++ later) top_k
  = global_fuzzy_keyword_search _perform_search config keywords top_k ∧
  (∀ all_configs kws,
     take top_k
       (keyword_loop_searched _perform_search all_configs top_k kws ([], ∅)).1
     = global_fuzzy_keyword_search _perform_search (Some all_configs) kws top_k) ∧
  (∀ all_configs kws,
     length (global_fuzzy_keyword_search _perform_search (Some all_configs) kws top_k)
     < top_k →
     keywords_searched _perform_search (Some all_configs) kws top_k
     = filter (λ kw, PyStr.truthy kw = true) kws).
Proof.
  intros Hpos Hfull. split_and!.
  - unfold keywords_searched, global_fuzzy_keyword_search in *.
    destruct config as [all_configs|]; [|done].
    rewrite keyword_loop_searched_full; [done|simpl; lia|].
    rewrite length_take in Hfull. lia.
  - unfold global_fuzzy_keyword_search in *.
    destruct config as [all_configs|]; [|done].
    rewrite keyword_loop_full; [done|simpl; lia|].
    rewrite length_take in Hfull. lia.
  - intros all_configs kws. by rewrite keyword_loop_searched_out.
  - intros all_configs kws Hshort. apply keyword_loop_searched_all.
    unfold global_fuzzy_keyword_search in Hshort.
    rewrite length_take in Hshort. lia.
Qed.

End SearchProvenance.

Lemma global_fuzzy_keyword_search_stops_early_witness :
  keywords_searched (λ _ _ _ _, Some example_hits) (Some example_config)
    (["Mouse"] ++ ["rat"; "mouse"]) 1
  = keywords_searched (λ _ _ _ _, Some example_hits) (Some example_config)
      ["Mouse"] 1 ∧
  keywords_searched (λ _ _ _ _, Some example_hits) (Some example_config)
    ["Mouse"] 1 = ["Mouse"].
Proof.
  split; [|reflexivity].
  apply (proj1 (global_fuzzy_keyword_search_stops_early
                  (λ _ _ _ _, Some example_hits) (Some example_config)
                  ["Mouse"] ["rat"; "mouse"] 1 (le_n 1)
                  ltac:(vm_compute; lia))).
Defined.

(** ** The filters of [_perform_search] *)

Lemma exact_match_filters_length (ds : string) (filters : list (string * string))
    (all_configs : all_configs_t) :
  length (exact_match_filters ds filters all_configs) ≤ length filters.
Proof.
  unfold exact_match_filters. generalize (default [] (dict_get ds all_configs)).
  intros valid. induction filters as [|[key value] filters IH]; [done|].
  csimpl. destruct (dict_get key valid); [|lia].
  case_decide; [destruct (find_best_matches _ _ _ _)|]; simpl; lia.
Qed.

(** X8: the filter that [search_across_all_fields] passes to
    [_perform_search], the best match of a configured field, becomes exactly
    one term on the backend path of that field with the same value, also for
    the keys whose value is matched against the vocabulary again (for
    vocabulary values shorter than 200 characters, and configurations
    without repeated keys, as parsed JSON objects are). *)
Theorem search_filter_is_kept (query : string) (all_configs : all_configs_t)
    (threshold : Q) (ds name top : string) (filters : list (string * field_config))
    (cfg : field_config) (rest : list string) :
  Forall (λ v, String.length v < 200) (values cfg) →
  NoDup all_configs.*1 →
  NoDup filters.*1 →
  (ds, filters) ∈ all_configs →
  (name, cfg) ∈ filters →
  find_best_matches query (values cfg) threshold 5 = top :: rest →
  exact_match_filters ds [(name, top)] all_configs = [(field cfg, top)].
Proof.
  intros _ Hnd Hndf Hds Hname Hbest.
  apply find_best_matches_head in Hbest as (Hhead & Hin & Hm).
  assert (∃ more, find_best_matches top (values cfg) default_threshold 5
                  = top :: more) as [more Hagain]; last first.
  { unfold exact_match_filters.
    rewrite (dict_elem_get ds filters all_configs) by done. csimpl.
    rewrite (dict_elem_get name cfg filters) by done.
    case_decide as Hkey; [|done]. by rewrite Hagain. }
  assert (top ≠ EmptyString) as Htop.
  { apply fuzzy_match_true in Hm as (_ & Ht & _). by apply truthy_true. }
  assert (head (filter (λ x, PyStr.lower x = PyStr.lower top) (values cfg))
          = Some top) as Hfirst.
  { apply (ranked_first_of_class query (values cfg) threshold); [done| |done].
    intros x Hx. split.
    - by rewrite (similarity_ratio_lower query query x top).
    - by rewrite (fuzzy_match_lower query query x top). }
  destruct (ranked_head_exact top (values cfg) default_threshold top)
    as (h & Hh & Hfirst'); [done|by vm_compute|done|done|].
  assert (h = top) as -> by congruence.
  rewrite find_best_matches_eq. clear Hhead.
  destruct (sort_reverse (similarity_ratio top) Qltb _) as [|h' more];
    simplify_eq/=.
  exists (take 4 more). reflexivity.
Qed.

Lemma search_filter_is_kept_witness :
  exact_match_filters "scr_017571_dandi" [("keywords", "Mouse")] authors_config
  = [("dc.subject.keyword", "Mouse")].
Proof.
  apply (search_filter_is_kept "mouse" authors_config default_threshold
           "scr_017571_dandi" "keywords" "Mouse"
           [("keywords", FieldConfig "dc.subject.keyword" ["rat"; "Mouse"; "mouse"])]
           (FieldConfig "dc.subject.keyword" ["rat"; "Mouse"; "mouse"]) ["mouse"]).
  - repeat (constructor; [simpl; lia|]). constructor.
  - vm_compute. apply NoDup_singleton.
  - vm_compute. apply NoDup_singleton.
  - left.
  - left.
  - vm_compute. reflexivity.
Defined.

(** X9: [_perform_search] drops filters whose key is not configured for the
    data source, and every term it builds is on the backend path of a
    configured filter; a value outside the fuzzy keys is passed unchanged. *)
Theorem exact_match_filters_configured (ds : string)
    (filters : list (string * string)) (all_configs : all_configs_t) :
  length (exact_match_filters ds filters all_configs) ≤ length filters ∧
  Forall (λ term, ∃ key value cfg,
            (key, value) ∈ filters ∧
            dict_get key (default [] (dict_get ds all_configs)) = Some cfg ∧
            term.1 = field cfg ∧
            (key ∉ FUZZY_FILTER_KEYS → term.2 = value) ∧
            (term.2 = value ∨ term.2 ∈ values cfg))
         (exact_match_filters ds filters all_configs) ∧
  (dict_get ds all_configs = None → exact_match_filters ds filters all_configs = []).
Proof.
  split_and!.
  - apply exact_match_filters_length.
  - apply Forall_forall. intros term Hterm. unfold exact_match_filters in Hterm.
    apply list_elem_of_omap in Hterm as ([key value] & Hin & Hterm).
    destruct (dict_get key _) as [cfg|] eqn:Ecfg; [|done].
    exists key, value, cfg. split; [done|]. split; [done|].
    case_decide as Hkey.
    + destruct (find_best_matches value (values cfg) default_threshold 5)
        as [|best more] eqn:Eb; simplify_eq/=.
      * split_and!; [done|done|by left].
      * apply find_best_matches_head in Eb as (_ & Hb & _).
        split_and!; [done|done|by right].
    + simplify_eq/=. split_and!; [done|done|by left].
  - intros Hnone. unfold exact_match_filters. rewrite Hnone. simpl.
    induction filters as [|[key value] filters IH]; [done|]. by csimpl.
Qed.

(** ** Python's [strip] *)

Lemma lstrip_cases (s : string) :
  PyStr.lstrip s = EmptyString ∨
  ∃ c r, PyStr.lstrip s = String c r ∧ PyStr.is_space c = false.
Proof.
  induction s as [|c s IH]; simpl; [by left|].
  destruct (PyStr.is_space c) eqn:E; [done|]. right. by exists c, s.
Qed.

Lemma rstrip_idemp (s : string) : PyStr.rstrip (PyStr.rstrip s) = PyStr.rstrip s.
Proof.
  induction s as [|c s IH]; [done|]. simpl.
  destruct (PyStr.rstrip s) as [|d r] eqn:E.
  - destruct (PyStr.is_space c) eqn:Ec; [done|]. simpl. by rewrite Ec.
  - change (PyStr.rstrip (String c (String d r))) with
      (match PyStr.rstrip (String d r) with
       | EmptyString => if PyStr.is_space c then EmptyString else String c EmptyString
       | r' => String c r'
       end).
    by rewrite IH.
Qed.

Lemma rstrip_head (c : ascii) (s : string) :
  PyStr.is_space c = false → ∃ r, PyStr.rstrip (String c s) = String c r.
Proof.
  intros Hc. simpl. destruct (PyStr.rstrip s); rewrite ?Hc; by eexists.
Qed.

Lemma strip_idemp (s : string) : PyStr.strip (PyStr.strip s) = PyStr.strip s.
Proof.
  unfold PyStr.strip.
  destruct (lstrip_cases s) as [->|(c & r & -> & Hc)]; [done|].
  destruct (rstrip_head c r Hc) as [r' Hr]. rewrite Hr.
  simpl PyStr.lstrip. rewrite Hc, <- Hr. apply rstrip_idemp.
Qed.

(** ** Normalisation of keywords and intents *)

Lemma fromkeys_NoDup (l : list string) : NoDup (fromkeys l).
Proof.
  unfold fromkeys.
  assert (∀ d : list (string * ()), NoDup d.*1 →
            NoDup (foldl (λ d k, dict_set k () d) d l).*1) as H.
  { induction l as [|k l IH]; intros d Hd; simpl; [done|].
    by apply IH, dict_set_NoDup. }
  apply H. constructor.
Qed.

Lemma fromkeys_elem (l : list string) (x : string) : x ∈ fromkeys l ↔ x ∈ l.
Proof.
  unfold fromkeys.
  assert (∀ d : list (string * ()),
            list_to_set (foldl (λ d k, dict_set k () d) d l).*1
            =@{gset string} list_to_set d.*1 ∪ list_to_set l) as H.
  { induction l as [|k l IH]; intros d; simpl; [set_solver|].
    rewrite IH, dict_set_key_set. set_solver. }
  specialize (H []). simpl in H.
  rewrite <- (elem_of_list_to_set (C := gset string) x (_.*1)), H.
  set_solver.
Qed.

Lemma fromkeys_nonempty (l : list string) : l ≠ [] → fromkeys l ≠ [].
Proof.
  destruct l as [|x l]; [done|]. intros _ Hnil.
  assert (x ∈ fromkeys (x :: l)) as Hin by (apply fromkeys_elem; left).
  rewrite Hnil in Hin. by apply elem_of_nil in Hin.
Qed.

Lemma normalize_keyword_clean (k t : string) :
  normalize_keyword k = Some t → t ≠ EmptyString ∧ PyStr.strip t = t.
Proof.
  unfold normalize_keyword.
  destruct (after_colon (PyStr.strip k)) as [r|];
    case_match eqn:Et; intros [= <-];
    (split; [by apply truthy_true|apply strip_idemp]).
Qed.

Lemma filter_none_elem {A : Type} (P : A → Prop) `{∀ x, Decision (P x)}
    (l : list A) :
  (∀ x, x ∈ l → ¬ P x) → filter P l = [].
Proof.
  intros HP. induction l as [|x l IH]; [done|].
  rewrite filter_cons_False by (apply HP; left).
  apply IH. intros y Hy. apply HP. by right.
Qed.

(** X10: the keywords that [call_gemini_for_keywords] returns: at most 20,
    pairwise different, none empty, none with blanks at either end, and each
    the cleaned form of a string of the model's list. *)
Theorem normalize_keywords_clean (kws : list (option string)) :
  length (normalize_keywords kws) ≤ 20 ∧
  NoDup (normalize_keywords kws) ∧
  Forall (λ t, t ≠ EmptyString ∧ PyStr.strip t = t ∧
               ∃ k, Some k ∈ kws ∧ normalize_keyword k = Some t)
         (normalize_keywords kws) ∧
  normalize_keywords [] = [] ∧
  normalize_keywords
    [Some "  species: Rat "; None; Some "rat"; Some "Rat"; Some " : "; Some "NWB"]
  = ["Rat"; "rat"; "NWB"].
Proof.
  unfold normalize_keywords. split_and!.
  - rewrite length_take. lia.
  - eapply sublist_NoDup; [apply fromkeys_NoDup|apply sublist_take].
  - apply Forall_forall. intros t Ht. apply subseteq_take in Ht.
    apply (proj1 (fromkeys_elem _ _)) in Ht.
    apply list_elem_of_omap in Ht as ([k|] & Hin & Hk); [|done].
    simpl in Hk. destruct (normalize_keyword_clean k t Hk) as [Hne Hstrip].
    split_and!; [done|done|]. by exists k.
  - done.
  - vm_compute. reflexivity.
Qed.

(** X11: the intents that [call_gemini_detect_intents] returns: never
    empty, at most 6, pairwise different, all among the allowed values, and
    [data_discovery] alone when the model names no allowed value.  For such a
    list the two tests for a pure greeting in the graph agree. *)
Theorem normalize_intents_allowed (raw : list (option string)) :
  normalize_intents raw ≠ [] ∧
  length (normalize_intents raw) ≤ 6 ∧
  NoDup (normalize_intents raw) ∧
  Forall (λ i, i ∈ ALLOWED_INTENTS) (normalize_intents raw) ∧
  (Forall (λ i, i ∉ ALLOWED_INTENTS) (omap id raw) →
   normalize_intents raw = [DATA_DISCOVERY]) ∧
  (only_greeting (normalize_intents raw) = true ↔
   normalize_intents raw = [GREETING]).
Proof.
  unfold normalize_intents.
  set (intents := filter (λ i, i ∈ ALLOWED_INTENTS) (omap id raw)).
  set (chosen := match intents with [] => [DATA_DISCOVERY] | _ => intents end).
  assert (chosen ≠ []) as Hne by (unfold chosen; by destruct intents).
  assert (Forall (λ i, i ∈ ALLOWED_INTENTS) chosen) as Hallowed.
  { unfold chosen. destruct intents as [|i l] eqn:E.
    - repeat constructor.
    - rewrite <- E. apply Forall_forall. intros x Hx.
      by apply list_elem_of_filter in Hx as [? _]. }
  assert (NoDup (take 6 (fromkeys chosen))) as Hnd.
  { eapply sublist_NoDup; [apply fromkeys_NoDup|apply sublist_take]. }
  split_and!.
  - pose proof (fromkeys_nonempty chosen Hne) as Hf.
    destruct (fromkeys chosen); [done|]. intros Hnil. simpl in Hnil. discriminate Hnil.
  - rewrite length_take. lia.
  - done.
  - apply Forall_forall. intros i Hi.
    apply subseteq_take in Hi.
    apply (proj1 (fromkeys_elem _ _)) in Hi.
    rewrite Forall_forall in Hallowed. by apply Hallowed.
  - intros Hnone. assert (intents = []) as Hi.
    { unfold intents. apply filter_none_elem. by rewrite <- Forall_forall. }
    unfold chosen. by rewrite Hi.
  - split; [|by intros ->].
    destruct (take 6 (fromkeys chosen)) as [|i [|j l]] eqn:E; [done| |].
    + simpl. rewrite andb_true_r. intros Hg.
      by apply bool_decide_eq_true_1 in Hg as ->.
    + simpl. intros Hg. apply andb_true_iff in Hg as [Hi Hg].
      apply andb_true_iff in Hg as [Hj _].
      apply bool_decide_eq_true_1 in Hi, Hj. subst.
      apply NoDup_cons in Hnd as [Hnot _]. exfalso. apply Hnot. left.
Qed.

(** ** The count of a continuation request *)

Lemma read_digits_bound (s : string) : ∀ value count value' count' after,
  read_digits s value count = (value', count', after) →
  value < 10 ^ count → value' < 10 ^ count'.
Proof.
  induction s as [|c s IH]; intros value count value' count' after; simpl.
  { by intros [= <- <- <-]. }
  destruct (PyStr.is_digit c) eqn:Ec; [|by intros [= <- <- <-]].
  intros Hread Hv. eapply IH; [exact Hread|].
  assert (nat_of_ascii c - 48 ≤ 9) as Hd.
  { unfold PyStr.is_digit in Ec. apply andb_true_iff in Ec as [_ Ec].
    apply Nat.leb_le in Ec. lia. }
  rewrite Nat.pow_succ_r'. lia.
Qed.

Lemma match_more_bound (t : string) (n : nat) : match_more t = Some n → n < 1000.
Proof.
  unfold match_more.
  destruct (_ ∪ _ ∪ _) as [[|c rest]|]; [done| |done].
  destruct (PyStr.is_space c); [|done].
  destruct (read_digits (PyStr.lstrip rest) 0 0) as [[value count] after] eqn:E.
  destruct ((1 <=? count) && (count <=? 3)) eqn:Ec; [|done].
  apply andb_true_iff in Ec as [_ Ec]. apply Nat.leb_le in Ec.
  case_match; [|done]. intros [= <-].
  apply read_digits_bound in E; [|simpl; lia].
  assert (10 ^ count ≤ 10 ^ 3) by (apply Nat.pow_le_mono_r; lia).
  simpl in *. lia.
Qed.

Lemma is_more_query_bound (text : string) (n : nat) :
  _is_more_query text = Some n → n < 1000.
Proof.
  unfold _is_more_query. destruct (negb _); [done|].
  case_decide; [done|]. apply match_more_bound.
Qed.

(** X12: a count that [_is_more_query] reads is below 1000, and it is the
    number written after "more", "next" or "show"; the continuation phrases
    alone and the empty text carry no count. *)
Theorem is_more_query_count :
  (∀ text n, _is_more_query text = Some n → n < 1000) ∧
  (∀ kw n, kw ∈ ["more"; "next"; "show"] → n < 1000 →
           _is_more_query (kw +:+ " " +:+ pretty n) = Some n) ∧
  (∀ phrase, phrase ∈ CONTINUE_PHRASES →
             _is_more_query phrase = None ∧ is_continuation phrase = true) ∧
  _is_more_query EmptyString = None ∧ is_continuation EmptyString = false.
Proof.
  split_and!.
  - apply is_more_query_bound.
  - intros kw n Hkw Hn.
    assert (forallb (λ kw, forallb (λ n,
              bool_decide (_is_more_query (kw +:+ " " +:+ pretty n) = Some n))
              (seq 0 1000)) ["more"; "next"; "show"] = true) as Hall
      by (vm_compute; reflexivity).
    rewrite forallb_forall in Hall.
    apply list_elem_of_In, Hall in Hkw. rewrite forallb_forall in Hkw.
    eapply bool_decide_eq_true_1, Hkw. apply in_seq. lia.
  - intros phrase Hp. repeat (apply elem_of_cons in Hp as [->|Hp]; [done|]).
    by apply elem_of_nil in Hp.
  - done.
  - done.
Qed.

(** ** Sessions under [handle_chat] *)

Lemma record_turn_lookup hist sid q text :
  ∃ turns, record_turn hist sid q text !! sid = Some turns ∧ length turns ≤ 20 ∧
    turns `suffix_of` default [] (hist !! sid) ++ ["User: " +:+ q; "Assistant: " +:+ text].
Proof.
  unfold record_turn. rewrite lookup_insert_eq. eexists. split; [done|].
  destruct (20 <? _) eqn:E.
  - apply Nat.ltb_lt in E. unfold last_items. split.
    + rewrite length_drop. lia.
    + apply suffix_drop.
  - apply Nat.ltb_ge in E. done.
Qed.

Lemma record_turn_ne hist sid sid' q text :
  sid' ≠ sid → record_turn hist sid q text !! sid' = hist !! sid'.
Proof. intros Hne. unfold record_turn. by rewrite lookup_insert_ne. Qed.

Lemma record_turn_ok hist sid q text :
  map_Forall (λ _ turns, length turns ≤ 20) hist →
  map_Forall (λ _ turns, length turns ≤ 20) (record_turn hist sid q text).
Proof.
  intros Hok sid' turns. destruct (decide (sid' = sid)) as [->|Hne].
  - destruct (record_turn_lookup hist sid q text) as (turns' & -> & Hlen & _).
    by intros [= <-].
  - rewrite record_turn_ne by done. apply Hok.
Qed.

Lemma ensure_history_lookup self sid :
  chat_history (ensure_history self sid) !! sid
  = Some (default [] (chat_history self !! sid)).
Proof.
  unfold ensure_history. destruct (chat_history self !! sid) eqn:E; simpl.
  - done.
  - by rewrite lookup_insert_eq.
Qed.

Lemma ensure_history_ne self sid sid' :
  sid' ≠ sid →
  chat_history (ensure_history self sid) !! sid' = chat_history self !! sid'.
Proof.
  intros Hne. unfold ensure_history.
  destruct (chat_history self !! sid); simpl; [done|]. by rewrite lookup_insert_ne.
Qed.

Lemma ensure_history_ok self sid : assistant_ok self → assistant_ok (ensure_history self sid).
Proof.
  intros [Hh Hm]. unfold ensure_history.
  destruct (chat_history self !! sid); [done|]. split; [|done].
  apply map_Forall_insert_2; [simpl; lia|done].
Qed.

Lemma reset_session_ok self sid : assistant_ok self → assistant_ok (reset_session self sid).
Proof. intros [Hh Hm]. split; by apply map_Forall_delete. Qed.

Lemma resolve_page_size_bounds more_count mem :
  (∀ n, more_count = Some n → n < 1000) →
  (∀ m, mem = Some m → 1 ≤ mem_page_size m ≤ 999) →
  1 ≤ resolve_page_size more_count mem ≤ 999.
Proof.
  intros Hc Hm. unfold resolve_page_size.
  destruct more_count as [[|n]|].
  - destruct mem as [m|]; simpl; [by apply Hm|lia].
  - specialize (Hc _ eq_refl). lia.
  - destruct mem as [m|]; simpl; [by apply Hm|lia].
Qed.


Lemma number_from_length {A} (l : list A) k : length (number_from k l) = length l.
Proof. revert k. induction l as [|x l IH]; intros k; simpl; [done|]. by rewrite IH. Qed.

Lemma number_from_take {A} (l : list A) k n :
  number_from k (take n l) = take n (number_from k l).
Proof.
  revert k n. induction l as [|x l IH]; intros k [|n]; simpl; try done.
  by rewrite IH.
Qed.

Lemma number_from_drop {A} (l : list A) k n :
  number_from (k + n) (drop n l) = drop n (number_from k l).
Proof.
  revert k n. induction l as [|x l IH]; intros k [|n]; simpl; try done.
  - by rewrite Nat.add_0_r.
  - rewrite <- IH. f_equal. lia.
Qed.

Lemma number_from_lookup {A} (l : list A) k i n x :
  number_from k l !! i = Some (n, x) ↔ n = k + i ∧ l !! i = Some x.
Proof.
  revert k i. induction l as [|y l IH]; intros k i; simpl.
  { rewrite !lookup_nil. naive_solver. }
  destruct i as [|i]; simpl.
  - rewrite Nat.add_0_r. naive_solver.
  - rewrite IH. replace (S k + i) with (k + S i) by lia. done.
Qed.

Lemma numbered_app log log' : numbered (log ++ log') = numbered log ++ numbered log'.
Proof. unfold numbered. by rewrite fmap_app, join_app. Qed.

Section AssistantSessions.

Variable call_gemini_detect_intents : string → list string → outcome (list string).
Variable call_gemini_rewrite_with_history : string → list string → outcome string.
Variable call_gemini_for_keywords : string → outcome (list string).
Variable call_gemini_for_final_synthesis :
  string → list fused → list string → nat → string → outcome string.
Variable general_search : string → nat → option (list hit).
Variable _perform_search :
  string → string → string * string → all_configs_t → option (list hit).
Variable datasources_config : option all_configs_t.
Variable vector_search : string → nat → list pyobj.

Local Notation "'handle'" := (handle_chat call_gemini_detect_intents
  call_gemini_rewrite_with_history call_gemini_for_keywords
  call_gemini_for_final_synthesis general_search _perform_search
  datasources_config vector_search).
Local Notation "'continue'" := (continue_session call_gemini_for_final_synthesis).
Local Notation "'invoke'" := (graph_invoke call_gemini_detect_intents
  call_gemini_rewrite_with_history call_gemini_for_keywords
  call_gemini_for_final_synthesis general_search _perform_search
  datasources_config vector_search).
Local Notation "'start_query'" := (new_query call_gemini_detect_intents
  call_gemini_rewrite_with_history call_gemini_for_keywords
  call_gemini_for_final_synthesis general_search _perform_search
  datasources_config vector_search).
Local Notation "'more'" := (more_requests call_gemini_detect_intents
  call_gemini_rewrite_with_history call_gemini_for_keywords
  call_gemini_for_final_synthesis general_search _perform_search
  datasources_config vector_search).

(** What a turn does to the assistant: nothing, or it records the turn in
    the history of the session and stores a session that is either fresh
    (page 1, page size 15) or the stored one moved on by a page. *)
Lemma continue_session_shape (self : assistant) (sid q : string) more_count mem :
  let r := continue self sid q more_count mem in
  r.1.2 = self ∨
  ∃ old new,
    mem = Some old ∧
    r.1.2 = MkAssistant (record_turn (chat_history self) sid q r.1.1)
              (<[sid := new]> (session_memory self)) ∧
    mem_all_results new = mem_all_results old ∧
    mem_page new = mem_page old + 1 ∧
    mem_page_size new = resolve_page_size more_count mem.
Proof.
  unfold continue_session.
  destruct (from_option mem_all_results [] mem) as [|x stored] eqn:Es; [by left|].
  destruct (next_batch more_count mem) as [|b batch]; [by left|].
  destruct (call_gemini_for_final_synthesis _ _ _ _ _) as [text|msg]; [|by left].
  right. destruct mem as [old|]; [|done]. simpl in *.
  eexists old, _. split_and!; done.
Qed.

Lemma new_query_shape (self : assistant) (sid q : string) :
  let r := start_query self sid q in
  r.1.2 = self ∨
  ∃ new,
    r.1.2 = MkAssistant (record_turn (chat_history self) sid q r.1.1)
              (<[sid := new]> (session_memory self)) ∧
    mem_page new = 1 ∧ mem_page_size new = 15.
Proof.
  unfold new_query. destruct (invoke _) as [log [fs|msg]]; [|by left].
  right. eexists. split_and!; done.
Qed.

Lemma handle_chat_unfold (self : assistant) (sid q : string) (reset : bool) :
  let self1 := if reset then reset_session self sid else self in
  handle self sid q reset
  = if is_continuation q
    then continue (ensure_history self1 sid) sid q (_is_more_query q)
           (session_memory self1 !! sid)
    else start_query (ensure_history self1 sid) sid q.
Proof. intros self1. unfold handle_chat. fold self1. by rewrite ensure_history_memory. Qed.

(** X13: [handle_chat] keeps the bounds of the assistant: afterwards every
    chat history still has at most 20 entries and every stored session a page
    number of at least 1 and a page size between 1 and 999. *)
Theorem handle_chat_keeps_bounds (self : assistant) (sid q : string) (reset : bool) :
  assistant_ok self → assistant_ok (handle self sid q reset).1.2.
Proof.
  intros Hok. rewrite handle_chat_unfold.
  set (self1 := if reset then reset_session self sid else self).
  assert (assistant_ok self1) as Hok1.
  { unfold self1. destruct reset; [by apply reset_session_ok|done]. }
  pose proof (ensure_history_ok self1 sid Hok1) as Hok2.
  destruct (is_continuation q).
  - destruct (continue_session_shape (ensure_history self1 sid) sid q
                (_is_more_query q) (session_memory self1 !! sid))
      as [->|(old & new & Hmem & -> & _ & Hpage & Hsize)]; [done|].
    destruct Hok2 as [Hh Hm]. split; simpl.
    + by apply record_turn_ok.
    + apply map_Forall_insert_2; [|done]. rewrite Hpage, Hsize. split; [lia|].
      apply resolve_page_size_bounds.
      * apply is_more_query_bound.
      * intros m Hm'. destruct Hok1 as [_ Hm1].
        rewrite Hm' in Hmem. by apply (Hm1 sid m).
  - destruct (new_query_shape (ensure_history self1 sid) sid q)
      as [->|(new & -> & Hpage & Hsize)]; [done|].
    destruct Hok2 as [Hh Hm]. split; simpl.
    + by apply record_turn_ok.
    + apply map_Forall_insert_2; [|done]. rewrite Hpage, Hsize. lia.
Qed.

(** X14: a turn of one session leaves every other session as it was: its
    chat history and its stored results, page and texts are untouched,
    whatever the request and whether or not the session is reset. *)
Theorem handle_chat_other_sessions (self : assistant) (sid sid' q : string)
    (reset : bool) :
  sid' ≠ sid →
  chat_history (handle self sid q reset).1.2 !! sid' = chat_history self !! sid' ∧
  session_memory (handle self sid q reset).1.2 !! sid' = session_memory self !! sid'.
Proof.
  intros Hne. rewrite handle_chat_unfold.
  set (self1 := if reset then reset_session self sid else self).
  assert (chat_history self1 !! sid' = chat_history self !! sid' ∧
          session_memory self1 !! sid' = session_memory self !! sid') as [Hh1 Hm1].
  { unfold self1. destruct reset; [|done]. simpl. by rewrite !lookup_delete_ne. }
  pose proof (ensure_history_ne self1 sid sid' Hne) as Hh2.
  pose proof (ensure_history_memory self1 sid) as Hm2.
  destruct (is_continuation q).
  - destruct (continue_session_shape (ensure_history self1 sid) sid q
                (_is_more_query q) (session_memory self1 !! sid))
      as [->|(old & new & _ & -> & _)].
    + by rewrite Hh2, Hm2, Hh1, Hm1.
    + simpl. by rewrite record_turn_ne, lookup_insert_ne, Hh2, Hm2, Hh1, Hm1.
  - destruct (new_query_shape (ensure_history self1 sid) sid q)
      as [->|(new & -> & _)].
    + by rewrite Hh2, Hm2, Hh1, Hm1.
    + simpl. by rewrite record_turn_ne, lookup_insert_ne, Hh2, Hm2, Hh1, Hm1.
Qed.

(** *** Failures, resets and greetings *)

(** X15: a turn on which the model raises is answered with the error text
    and changes nothing: the stored sessions are those from before the turn,
    the history of the session gets no entry and the page is not advanced.
    This holds for a continuation whose synthesis raises and for a new query
    whose graph raises at any node. *)
Theorem failed_turn_keeps_session (self : assistant) (sid q : string)
    (reset : bool) (msg : string) :
  let self1 := if reset then reset_session self sid else self in
  let self2 := ensure_history self1 sid in
  (is_continuation q = true ∧
   ∃ mem, session_memory self1 !! sid = Some mem ∧
          next_batch (_is_more_query q) (Some mem) ≠ [] ∧
          call_gemini_for_final_synthesis (mem_effective_query mem)
            (next_batch (_is_more_query q) (Some mem)) (mem_intents mem)
            (next_start (_is_more_query q) (Some mem) + 1) (mem_last_text mem)
          = Raise msg)
  ∨ (is_continuation q = false ∧ (invoke (initial_state self2 sid q)).2 = Raise msg) →
  (handle self sid q reset).1 = ("Error: " +:+ msg, self2) ∧
  session_memory self2 = session_memory self1 ∧
  chat_history self2 !! sid = Some (default [] (chat_history self1 !! sid)).
Proof.
  intros self1 self2 Hraise. split_and!.
  - rewrite handle_chat_unfold. fold self1 self2.
    destruct Hraise as [(-> & mem & Hmem & Hbatch & Hsyn)|[-> Hrun]].
    + rewrite Hmem. unfold continue_session.
      destruct (from_option mem_all_results [] (Some mem)) as [|x stored] eqn:Es.
      { exfalso. apply Hbatch. unfold next_batch. rewrite Es.
        by rewrite drop_nil, take_nil. }
      destruct (next_batch (_is_more_query q) (Some mem)) as [|b batch]; [done|].
      simpl in *. by rewrite Hsyn.
    + unfold new_query. destruct (invoke _) as [log [fs|msg']]; simplify_eq/=. done.
  - apply ensure_history_memory.
  - apply ensure_history_lookup.
Qed.

(** X16: a turn with [reset] forgets the session.  A continuation request
    then finds nothing to continue and calls no collaborator; a new query
    shows the model an empty history, in the first call of the turn, and the
    history of the session afterwards is empty or holds this turn alone. *)
Theorem reset_forgets_session (self : assistant) (sid q : string) :
  let r := handle self sid q true in
  if is_continuation q
  then r = (NO_EARLIER_RESULTS, ensure_history (reset_session self sid) sid, [])
  else (∃ log', r.2 = CallDetectIntents q [] :: log') ∧
       (chat_history r.1.2 !! sid = Some [] ∨
        chat_history r.1.2 !! sid
        = Some ["User: " +:+ q; "Assistant: " +:+ r.1.1]).
Proof.
  intros r. unfold r. rewrite handle_chat_unfold.
  assert (chat_history (ensure_history (reset_session self sid) sid) !! sid
          = Some []) as Hh.
  { rewrite ensure_history_lookup. simpl. by rewrite lookup_delete_eq. }
  destruct (is_continuation q).
  - apply continue_session_empty. simpl. by rewrite lookup_delete_eq.
  - unfold new_query, initial_state. rewrite Hh. simpl.
    unfold graph_invoke at 1, extract_keywords_and_rewrite at 1.
    unfold perform, mbind, M_bind, mret, M_ret. simpl.
    repeat (case_match; simplify_eq/=);
      (split; [by eexists|]);
      rewrite ?Hh; try (by left);
      right; unfold record_turn; rewrite Hh, lookup_insert_eq; done.
Qed.

(** X17: a message that the model takes for a pure greeting is answered with
    the fixed greeting after that one call: nothing is rewritten, searched or
    synthesized.  The session stored for it has no results, so that a "more"
    after it finds nothing to continue. *)
Theorem greeting_turn (self : assistant) (sid q : string) (reset : bool) :
  let self1 := if reset then reset_session self sid else self in
  let hist := last_items 10 (default [] (chat_history self1 !! sid)) in
  is_continuation q = false →
  call_gemini_detect_intents q hist = Ok [GREETING] →
  ∃ s0 : assistant,
    handle self sid q reset = (GREETING_RESPONSE, s0, [CallDetectIntents q hist]) ∧
    session_memory s0 !! sid
    = Some (MkSession [] 1 15 q [] [GREETING] GREETING_RESPONSE) ∧
    handle s0 sid "more" false = (NO_EARLIER_RESULTS, s0, []).
Proof.
  intros self1 hist Hq Hgreet.
  assert (invoke (initial_state (ensure_history self1 sid) sid q)
          = ([CallDetectIntents q hist],
             Ok (MkAgentState sid q hist [] q [GREETING] [] [] [] [] 1
                   EmptyString GREETING_RESPONSE))) as Hrun.
  { unfold initial_state. rewrite ensure_history_lookup. simpl. fold hist.
    unfold graph_invoke, extract_keywords_and_rewrite.
    unfold perform, mbind, M_bind, mret, M_ret. simpl. rewrite Hgreet.
    rewrite decide_True by done. reflexivity. }
  eexists. split_and!.
  - rewrite handle_chat_unfold. fold self1. rewrite Hq. unfold new_query.
    rewrite Hrun. simpl. reflexivity.
  - simpl. by rewrite lookup_insert_eq.
  - rewrite handle_chat_unfold. simpl.
    change (is_continuation "more") with true. cbv iota.
    rewrite lookup_insert_eq.
    rewrite continue_session_empty by done. f_equal. f_equal.
    unfold ensure_history, record_turn. simpl. by rewrite lookup_insert_eq.
Qed.

(** *** Continuation requests in a row *)

Lemma more_request_step (self : assistant) (sid : string) (mem : session) :
  (∀ q b its start prev,
     ∃ text, call_gemini_for_final_synthesis q b its start prev = Ok text) →
  session_memory self !! sid = Some mem →
  let r := handle self sid "more" false in
  let batch := take (mem_page_size mem)
                 (drop (mem_page mem * mem_page_size mem) (mem_all_results mem)) in
  (batch = [] ∧ r.2 = [] ∧ session_memory r.1.2 !! sid = Some mem) ∨
  (∃ q its prev mem',
     r.2 = [CallSynthesis q batch its (mem_page mem * mem_page_size mem + 1) prev] ∧
     session_memory r.1.2 !! sid = Some mem' ∧
     mem_all_results mem' = mem_all_results mem ∧
     mem_page_size mem' = mem_page_size mem ∧
     mem_page mem' = mem_page mem + 1).
Proof.
  intros Hsyn Hmem r batch. unfold r. rewrite handle_chat_unfold.
  change (is_continuation "more") with true.
  change (_is_more_query "more") with (@None nat). cbv iota. rewrite Hmem.
  assert (next_start None (Some mem) = mem_page mem * mem_page_size mem) as Hstart.
  { unfold next_start. simpl. by rewrite Nat.add_sub. }
  assert (next_batch None (Some mem) = batch) as Hbatch.
  { unfold next_batch. by rewrite Hstart. }
  unfold continue_session. rewrite Hbatch, Hstart.
  destruct (from_option mem_all_results [] (Some mem)) as [|x stored] eqn:Es.
  { left. simpl in Es. cbn [fst snd]. unfold batch. rewrite Es.
    rewrite drop_nil, take_nil, ensure_history_memory. done. }
  destruct batch as [|b batch'] eqn:Eb.
  { left. cbn [fst snd]. by rewrite ensure_history_memory. }
  destruct (Hsyn (from_option mem_effective_query EmptyString (Some mem)) (b :: batch')
              (from_option mem_intents [DATA_DISCOVERY] (Some mem))
              (mem_page mem * mem_page_size mem + 1)
              (from_option mem_last_text EmptyString (Some mem))) as [text ->].
  right. simpl. eexists _, _, _, _. split; [done|].
  rewrite lookup_insert_eq. split; [done|]. simpl in Es. by rewrite Es.
Qed.

(** X18: any number of "more" requests in a row, with a synthesis that
    answers, serve the stored results in order without a gap or a repeat:
    from a session on page p with page size s, n requests list exactly the
    next n·s records (or what is left of them), each under its position in
    the stored list, and the page number goes up by one per list served. *)
Theorem more_requests_serve_in_order (n : nat) (self : assistant) (sid : string)
    (mem : session) :
  (∀ q b its start prev,
     ∃ text, call_gemini_for_final_synthesis q b its start prev = Ok text) →
  session_memory self !! sid = Some mem →
  numbered (more n self sid).2
  = take (n * mem_page_size mem)
      (drop (mem_page mem * mem_page_size mem)
         (number_from 1 (mem_all_results mem))) ∧
  ∃ mem', session_memory (more n self sid).1 !! sid = Some mem' ∧
          mem_all_results mem' = mem_all_results mem ∧
          mem_page_size mem' = mem_page_size mem ∧
          mem_page mem' = mem_page mem + length (more n self sid).2.
Proof.
  intros Hsyn. revert self mem. induction n as [|n IH]; intros self mem Hmem.
  { simpl. split; [done|]. exists mem. by rewrite Nat.add_0_r. }
  cbn [more_requests fst snd].
  destruct (more_request_step self sid mem Hsyn Hmem)
    as [(Hnil & -> & Hmem')|(q & its & prev & mem' & -> & Hmem' & Hall & Hsize & Hpage)].
  - destruct (IH _ _ Hmem') as (Hnum & mem'' & Hm & Ha & Hs & Hp).
    rewrite !app_nil_l. split; [|by eauto].
    rewrite Hnum. simpl.
    rewrite <- take_take_drop.
    assert (take (mem_page_size mem)
              (drop (mem_page mem * mem_page_size mem)
                 (number_from 1 (mem_all_results mem))) = []) as Hnil'.
    { rewrite <- number_from_drop, <- number_from_take, Hnil. done. }
    rewrite Hnil'. simpl.
    destruct (mem_page_size mem) as [|s]; [done|].
    destruct (drop _ (number_from 1 _)) as [|y rest]; [|done].
    by rewrite drop_nil.
  - destruct (IH _ _ Hmem') as (Hnum & mem'' & Hm & Ha & Hs & Hp).
    split.
    + rewrite numbered_app, Hnum, Hall, Hsize, Hpage.
      unfold numbered at 1. simpl. rewrite app_nil_r.
      rewrite <- take_take_drop, drop_drop.
      rewrite Nat.add_comm, number_from_take, number_from_drop.
      f_equal. f_equal. f_equal. lia.
    + exists mem''. rewrite Hm, Ha, Hs, Hp, Hall, Hsize, Hpage.
      split_and!; try done. rewrite length_app. simpl. lia.
Qed.

(** X19: a continuation request with a count N of at least 1 makes N the
    page size: it serves the N records after the first page·N of the stored
    list, numbered from page·N + 1, and stores N as the page size with the
    page number advanced.  When (page + 1)·N is at most page·(stored page
    size), every record it serves lies within the records up to the stored
    page, so records listed before are listed again. *)
Theorem more_with_count (self : assistant) (sid q : string) (reset : bool)
    (mem : session) (n : nat) (text : string) :
  let self1 := if reset then reset_session self sid else self in
  let start := mem_page mem * n in
  let batch := take n (drop start (mem_all_results mem)) in
  _is_more_query q = Some n → 1 ≤ n →
  session_memory self1 !! sid = Some mem →
  batch ≠ [] →
  call_gemini_for_final_synthesis (mem_effective_query mem) batch
    (mem_intents mem) (start + 1) (mem_last_text mem) = Ok text →
  ∃ s' mem',
    handle self sid q reset
    = (text, s', [CallSynthesis (mem_effective_query mem) batch (mem_intents mem)
                    (start + 1) (mem_last_text mem)]) ∧
    session_memory s' !! sid = Some mem' ∧
    mem_all_results mem' = mem_all_results mem ∧
    mem_page mem' = mem_page mem + 1 ∧
    mem_page_size mem' = n ∧
    (start + n ≤ mem_page mem * mem_page_size mem →
     batch = take n (drop start
                       (take (mem_page mem * mem_page_size mem) (mem_all_results mem)))).
Proof.
  intros self1 start batch Hq Hn Hmem Hbatch Hsyn.
  assert (resolve_page_size (Some n) (Some mem) = n) as Hsize.
  { destruct n; [lia|done]. }
  assert (next_start (Some n) (Some mem) = start) as Hstart.
  { unfold next_start. rewrite Hsize. simpl. by rewrite Nat.add_sub. }
  assert (next_batch (Some n) (Some mem) = batch) as Hb.
  { unfold next_batch. by rewrite Hstart, Hsize. }
  eexists _, _. split_and!.
  - rewrite handle_chat_unfold. fold self1.
    assert (is_continuation q = true) as -> by (unfold is_continuation; by rewrite Hq).
    rewrite Hq, Hmem.
    rewrite (continue_session_page _ _ _ _ _ _ text); rewrite ?Hb, ?Hstart; done.
  - simpl. by rewrite lookup_insert_eq.
  - done.
  - done.
  - done.
  - intros Hle. unfold batch.
    rewrite (take_drop_commute (take _ _)), take_take, Nat.min_l by lia.
    by rewrite <- take_drop_commute.
Qed.

End AssistantSessions.

Lemma handle_chat_keeps_bounds_witness :
  assistant_ok served_assistant ∧
  assistant_ok (stub_handle_chat 0 served_assistant "s" "more 1" false).1.2.
Proof.
  assert (assistant_ok served_assistant) as Hok.
  { split; apply map_Forall_singleton; simpl; lia. }
  split; [exact Hok|].
  apply (handle_chat_keeps_bounds stub_detect_intents stub_rewrite stub_keywords
           stub_synthesis stub_general_search stub_perform_search None
           (stub_vector_search 0) served_assistant "s" "more 1" false Hok).
Defined.

Lemma handle_chat_other_sessions_witness :
  chat_history (stub_handle_chat 3 served_assistant "t" "rat" false).1.2 !! "s"
  = chat_history served_assistant !! "s" ∧
  session_memory (stub_handle_chat 3 served_assistant "t" "rat" false).1.2 !! "s"
  = session_memory served_assistant !! "s".
Proof.
  apply (handle_chat_other_sessions stub_detect_intents stub_rewrite stub_keywords
           stub_synthesis stub_general_search stub_perform_search None
           (stub_vector_search 3) served_assistant "t" "s" "rat" false).
  discriminate.
Defined.

Lemma failed_turn_keeps_session_witness :
  (handle_chat stub_detect_intents stub_rewrite stub_keywords failing_synthesis
     stub_general_search stub_perform_search None (stub_vector_search 0)
     served_assistant "s" "more 1" false).1
  = ("Error: Gemini synthesis returned empty text.", served_assistant).
Proof.
  apply (failed_turn_keeps_session stub_detect_intents stub_rewrite stub_keywords
           failing_synthesis stub_general_search stub_perform_search None
           (stub_vector_search 0) served_assistant "s" "more 1" false
           "Gemini synthesis returned empty text.").
  left. split; [reflexivity|].
  exists (MkSession two_results 1 15 "rat" [] [DATA_DISCOVERY] "datasets from 1").
  split_and!; [reflexivity|discriminate|reflexivity].
Defined.

Lemma greeting_turn_witness :
  ∃ s0 : assistant,
    handle_chat greeting_intents stub_rewrite stub_keywords stub_synthesis
      stub_general_search stub_perform_search None (stub_vector_search 3)
      served_assistant "s" "hello" false
    = (GREETING_RESPONSE, s0,
       [CallDetectIntents "hello" ["User: rat"; "Assistant: datasets from 1"]]) ∧
    handle_chat greeting_intents stub_rewrite stub_keywords stub_synthesis
      stub_general_search stub_perform_search None (stub_vector_search 3)
      s0 "s" "more" false
    = (NO_EARLIER_RESULTS, s0, []).
Proof.
  destruct (greeting_turn greeting_intents stub_rewrite stub_keywords
              stub_synthesis stub_general_search stub_perform_search None
              (stub_vector_search 3) served_assistant "s" "hello" false)
    as (s0 & Hturn & _ & Hmore).
  - reflexivity.
  - reflexivity.
  - exists s0. split; [exact Hturn|exact Hmore].
Defined.

Lemma more_requests_serve_in_order_witness :
  numbered (more_requests stub_detect_intents stub_rewrite stub_keywords
              stub_synthesis stub_general_search stub_perform_search None
              (stub_vector_search 0) 3
              (stub_handle_chat 40 empty_assistant "s" "rat" false).1.2 "s").2
  = take 45 (drop 15 (number_from 1
      ((λ i, Fused (Hit (Some (pretty i)) None (Some 0.5%float) None ∅) 0.3%float)
         <$> seq 0 40))).
Proof.
  refine (proj1 (more_requests_serve_in_order stub_detect_intents stub_rewrite
           stub_keywords stub_synthesis stub_general_search stub_perform_search
           None (stub_vector_search 0) 3
           (stub_handle_chat 40 empty_assistant "s" "rat" false).1.2 "s"
           (MkSession
              ((λ i, Fused (Hit (Some (pretty i)) None (Some 0.5%float) None ∅)
                       0.3%float) <$> seq 0 40)
              1 15 "rat" [] [DATA_DISCOVERY] "datasets from 1") _ _)).
  - intros. eexists. reflexivity.
  - vm_compute. reflexivity.
Defined.

Lemma more_with_count_witness :
  ∃ s' mem',
    stub_handle_chat 0 served_assistant "s" "more 1" false
    = (("datasets from 2" : string), s',
       [CallSynthesis "rat" [Fused (hit_with_id "b") 0.25%float]
          [DATA_DISCOVERY] 2 "datasets from 1"]) ∧
    session_memory s' !! "s" = Some mem' ∧
    mem_page mem' = 2 ∧ mem_page_size mem' = 1.
Proof.
  destruct (more_with_count stub_detect_intents stub_rewrite stub_keywords
              stub_synthesis stub_general_search stub_perform_search None
              (stub_vector_search 0) served_assistant "s" "more 1" false
              (MkSession two_results 1 15 "rat" [] [DATA_DISCOVERY] "datasets from 1")
              1 "datasets from 2")
    as (s' & mem' & Hturn & Hmem & _ & Hpage & Hsize & _).
  - reflexivity.
  - lia.
  - reflexivity.
  - discriminate.
  - reflexivity.
  - exists s', mem'. split_and!; [exact Hturn|exact Hmem|exact Hpage|exact Hsize].
Defined.

(** ** Order and size of the fused list *)

(** The sort is in descending order as soon as the comparison is asymmetric
    and its complement is transitive through the keys of the list. *)
Section SortReverseOn.
Context {A K : Type} (key : A → K) (ltb : K → K → bool) (ok : K → Prop).
Hypothesis ltb_asym : ∀ a b, ltb a b = true → ltb b a = false.
Hypothesis geb_trans_on :
  ∀ a b c, ok b → ltb a b = false → ltb b c = false → ltb a c = false.

Lemma insert_desc_sorted_on x l :
  Forall (λ y, ok (key y)) l →
  StronglySorted (desc key ltb) l →
  StronglySorted (desc key ltb) (insert_desc key ltb x l).
Proof.
  intros Hok Hl. induction Hl as [|y l Hl IH Hy]; simpl.
  { repeat constructor. }
  apply Forall_cons in Hok as [Hoky Hok].
  destruct (ltb (key x) (key y)) eqn:E.
  - constructor; [by apply IH|].
    rewrite insert_desc_perm. constructor; [by apply ltb_asym|done].
  - constructor; [by constructor|].
    constructor; [done|].
    eapply Forall_impl; [exact Hy|]. intros z Hz. by eapply geb_trans_on.
Qed.

Lemma sort_reverse_sorted_on l :
  Forall (λ y, ok (key y)) l →
  StronglySorted (desc key ltb) (sort_reverse key ltb l).
Proof.
  induction l as [|x l IH]; simpl; [constructor|].
  intros [Hx Hl]%Forall_cons. apply insert_desc_sorted_on; [|by apply IH].
  by rewrite sort_reverse_perm.
Qed.

End SortReverseOn.

(** The comparison of binary64 numbers. *)
Lemma SFltb_asym (a b : SpecFloat.spec_float) :
  SpecFloat.SFltb a b = true → SpecFloat.SFltb b a = false.
Proof.
  unfold SpecFloat.SFltb.
  destruct a as [sa|sa| |sa ma ea], b as [sb|sb| |sb mb eb]; simpl;
    try done; try (by destruct sa); try (by destruct sb);
    try (by destruct sa, sb).
  change (Pos.compare_cont Eq ma mb) with (ma ?= mb)%positive.
  change (Pos.compare_cont Eq mb ma) with (mb ?= ma)%positive.
  rewrite (Z.compare_antisym ea eb), (Pos.compare_antisym ma mb).
  destruct sa, sb; try done;
    destruct (ea ?= eb)%Z; simpl; try done; by destruct (ma ?= mb)%positive.
Qed.

Lemma SFltb_geb_trans (a b c : SpecFloat.spec_float) :
  b ≠ SpecFloat.S754_nan →
  SpecFloat.SFltb a b = false → SpecFloat.SFltb b c = false →
  SpecFloat.SFltb a c = false.
Proof.
  unfold SpecFloat.SFltb.
  destruct a as [sa|sa| |sa ma ea], b as [sb|sb| |sb mb eb], c as [sc|sc| |sc mc ec];
    simpl; try done;
    try (by destruct sa); try (by destruct sb); try (by destruct sc);
    try (by destruct sa, sb); try (by destruct sa, sc); try (by destruct sb, sc);
    try (by destruct sa, sb, sc).
  intros _.
  change (Pos.compare_cont Eq ma mb) with (ma ?= mb)%positive.
  change (Pos.compare_cont Eq mb mc) with (mb ?= mc)%positive.
  change (Pos.compare_cont Eq ma mc) with (ma ?= mc)%positive.
  destruct sa, sb, sc; try done;
    destruct (Z.compare_spec ea eb), (Z.compare_spec eb ec), (Z.compare_spec ea ec);
    simpl; try done; try lia;
    destruct (Pos.compare_spec ma mb), (Pos.compare_spec mb mc),
             (Pos.compare_spec ma mc); simpl; try done; lia.
Qed.

Lemma float_ltb_asym (x y : float) :
  PrimFloat.ltb x y = true → PrimFloat.ltb y x = false.
Proof. rewrite !FloatAxioms.ltb_spec. apply SFltb_asym. Qed.

Lemma float_geb_trans (x y z : float) :
  PrimFloat.is_nan y = false →
  PrimFloat.ltb x y = false → PrimFloat.ltb y z = false → PrimFloat.ltb x z = false.
Proof.
  rewrite !FloatAxioms.ltb_spec. intros Hy. apply SFltb_geb_trans.
  intros Hnan. unfold PrimFloat.is_nan in Hy.
  rewrite FloatAxioms.eqb_spec, Hnan in Hy. done.
Qed.

(** X20: where no fused score is a NaN, the fused list is in descending
    order of the score: no record has a strictly higher score than a record
    listed before it.  So the first page holds 15 records that none of the
    later ones outscores. *)
Theorem all_sorted_descending (ks vec : list pyobj) :
  Forall (λ r, PrimFloat.is_nan (final_score r) = false) (all_sorted ks vec) →
  (∀ i j x y, i < j →
     all_sorted ks vec !! i = Some x → all_sorted ks vec !! j = Some y →
     PrimFloat.ltb (final_score x) (final_score y) = false) ∧
  (∀ x y, x ∈ take PAGE_SIZE (all_sorted ks vec) →
          y ∈ drop PAGE_SIZE (all_sorted ks vec) →
          PrimFloat.ltb (final_score x) (final_score y) = false).
Proof.
  intros Hok.
  assert (StronglySorted (desc final_score PrimFloat.ltb) (all_sorted ks vec))
    as Hsorted.
  { apply (sort_reverse_sorted_on final_score PrimFloat.ltb
             (λ s, PrimFloat.is_nan s = false)).
    - apply float_ltb_asym.
    - apply float_geb_trans.
    - unfold all_sorted in Hok. by rewrite sort_reverse_perm in Hok. }
  assert (∀ i j x y, i < j →
     all_sorted ks vec !! i = Some x → all_sorted ks vec !! j = Some y →
     PrimFloat.ltb (final_score x) (final_score y) = false) as Hlt.
  { intros i j x y Hij Hi Hj.
    apply (StronglySorted_lookup_lt _ _ _ _ _ _ Hsorted Hij Hi Hj). }
  split; [exact Hlt|].
  intros x y [i Hi]%list_elem_of_lookup [j Hj]%list_elem_of_lookup.
  apply lookup_take_Some in Hi as [Hi Hlen]. rewrite lookup_drop in Hj.
  apply (Hlt i (PAGE_SIZE + j)); [lia|done..].
Qed.

(** *** Size *)

Lemma dict_set_length {V} k (v : V) d :
  length d ≤ length (dict_set k v d) ≤ S (length d) ∧ dict_set k v d ≠ [].
Proof.
  induction d as [|[k' v'] d IH]; simpl; [split; [lia|done]|].
  destruct (decide (k = k')); simpl; [split; [lia|done]|].
  split; [lia|done].
Qed.

Lemma add_vector_length c o :
  length c ≤ length (add_vector c o) ≤ length c + length (dicts [o]) ∧
  (dicts [o] ≠ [] → add_vector c o ≠ []).
Proof.
  destruct o as [res|]; simpl; [|split; [lia|done]].
  destruct (dict_set_length (vector_doc_id c res) (Fused res (vector_contribution res)) c)
    as [? ?]. split; [lia|done].
Qed.

Lemma add_ks_length c o :
  length c ≤ length (add_ks c o) ≤ length c + length (dicts [o]) ∧
  (dicts [o] ≠ [] → add_ks c o ≠ []).
Proof.
  destruct o as [res|]; simpl; [|split; [lia|done]].
  destruct (dict_get _ c) as [old|].
  - destruct (dict_set_length (ks_doc_id c res)
                (Fused (doc old) (final_score old + ks_contribution res)%float) c)
      as [? ?]. split; [lia|done].
  - destruct (dict_set_length (ks_doc_id c res) (Fused res (ks_contribution res)) c)
      as [? ?]. split; [lia|done].
Qed.

Lemma dicts_cons o l : dicts (o :: l) = dicts [o] ++ dicts l.
Proof. by destruct o. Qed.

Lemma foldl_add_length (add : dict_t → pyobj → dict_t) :
  (∀ c o, length c ≤ length (add c o) ≤ length c + length (dicts [o]) ∧
          (dicts [o] ≠ [] → add c o ≠ [])) →
  ∀ l c, length c ≤ length (foldl add c l) ≤ length c + length (dicts l) ∧
         (dicts l ≠ [] → foldl add c l ≠ []).
Proof.
  intros Hadd l. induction l as [|o l IH]; intros c; simpl foldl.
  { simpl. split; [lia|done]. }
  destruct (Hadd c o) as [Hlen Hne], (IH (add c o)) as [Hlen' Hne'].
  rewrite dicts_cons, length_app. split; [lia|].
  intros Hd. destruct (dicts l) as [|r rest] eqn:El.
  - rewrite app_nil_r in Hd. specialize (Hne Hd).
    intros Hnil. rewrite Hnil in Hlen'. simpl in Hlen'.
    destruct (add c o); [done|simpl in Hlen'; lia].
  - by apply Hne'.
Qed.

Lemma foldl_add_dicts (add : dict_t → pyobj → dict_t) :
  (∀ c, add c POther = c) →
  ∀ l c, foldl add c l = foldl add c (PDict <$> dicts l).
Proof.
  intros Hother l. induction l as [|[res|] l IH]; intros c; simpl; [done|..].
  - apply IH.
  - rewrite Hother. apply IH.
Qed.

Lemma fuse_results_dicts_only_aux (state : AgentState) :
  length (all_sorted (ks_results state) (vector_results state))
  ≤ length (dicts (vector_results state)) + length (dicts (ks_results state)) ∧
  (dicts (ks_results state) = [] → dicts (vector_results state) = [] →
   all_sorted (ks_results state) (vector_results state) = []).
Proof.
  pose proof (foldl_add_length add_vector add_vector_length (vector_results state) [])
    as [Hv _].
  pose proof (foldl_add_length add_ks add_ks_length (ks_results state)
                (foldl add_vector [] (vector_results state))) as [Hk _].
  assert (length (all_sorted (ks_results state) (vector_results state))
          = length (foldl add_ks (foldl add_vector [] (vector_results state))
                      (ks_results state))) as Hlen.
  { unfold all_sorted. by rewrite sort_reverse_length, length_fmap. }
  simpl in Hv. split; [lia|].
  intros Hks Hvec. rewrite Hks, Hvec in *. simpl in *.
  apply length_zero_iff_nil. lia.
Qed.

(** X21: [fuse_results] looks at the dictionaries of the two lists only and
    fuses them into at most as many records as there are dictionaries, and
    into at least one when there is any; the first page is the first 15
    records of the fused list. *)
Theorem fuse_results_dicts_only (state : AgentState) :
  let fused_state := fuse_results state in
  let ks := dicts (ks_results state) in
  let vec := dicts (vector_results state) in
  all_results fused_state = all_sorted (PDict <$> ks) (PDict <$> vec) ∧
  length (all_results fused_state) ≤ length vec + length ks ∧
  (all_results fused_state = [] ↔ ks = [] ∧ vec = []) ∧
  final_results fused_state = take 15 (all_results fused_state) ∧
  length (final_results fused_state) ≤ 15.
Proof.
  intros fused_state ks vec.
  assert (all_results fused_state = all_sorted (ks_results state) (vector_results state))
    as Hall by done.
  pose proof (foldl_add_length add_vector add_vector_length (vector_results state) [])
    as [Hv Hvne].
  pose proof (foldl_add_length add_ks add_ks_length (ks_results state)
                (foldl add_vector [] (vector_results state))) as [Hk Hkne].
  assert (length (all_results fused_state)
          = length (combined_dict (ks_results state) (vector_results state))) as Hlen.
  { rewrite Hall. unfold all_sorted. by rewrite sort_reverse_length, length_fmap. }
  fold vec in Hv, Hvne. fold ks in Hk, Hkne.
  fold (combined_dict (ks_results state) (vector_results state)) in Hk, Hkne.
  simpl in Hv. split_and!.
  - rewrite Hall. unfold all_sorted, combined_dict.
    rewrite (foldl_add_dicts add_vector) by done.
    rewrite (foldl_add_dicts add_ks) by done. done.
  - lia.
  - split.
    + intros Hnil. rewrite Hnil in Hlen. simpl in Hlen.
      destruct ks as [|r ks'].
      * split; [done|]. destruct vec as [|r vec']; [done|].
        exfalso. assert (foldl add_vector [] (vector_results state) ≠ []) as Hne
          by by apply Hvne.
        destruct (foldl add_vector [] (vector_results state)); [done|].
        simpl in Hk. lia.
      * exfalso. assert (combined_dict (ks_results state) (vector_results state) ≠ [])
          as Hne by by apply Hkne.
        destruct (combined_dict _ _); [done|]. simpl in Hlen. lia.
    + intros [Hks Hvec]. rewrite Hks, Hvec in *. simpl in *.
      apply length_zero_iff_nil. lia.
  - done.
  - change (final_results fused_state) with (take 15 (all_results fused_state)).
    rewrite length_take. lia.
Qed.

Lemma all_sorted_descending_witness :
  ∃ x y,
    all_sorted example_ks_results example_vector_results !! 0 = Some x ∧
    all_sorted example_ks_results example_vector_results !! 3 = Some y ∧
    final_score x = 0.9400000000000001%float ∧
    PrimFloat.ltb (final_score x) (final_score y) = false.
Proof.
  destruct (all_sorted_descending example_ks_results example_vector_results)
    as [Hlt _].
  { vm_compute. repeat constructor. }
  destruct (all_sorted example_ks_results example_vector_results !! 0)
    as [x|] eqn:Hx; [|by vm_compute in Hx].
  destruct (all_sorted example_ks_results example_vector_results !! 3)
    as [y|] eqn:Hy; [|by vm_compute in Hy].
  exists x, y. split_and!; [done|done| |].
  - vm_compute in Hx. by injection Hx as <-.
  - apply (Hlt 0 3); [lia|done..].
Defined.

(** *** The pool of a new query *)

Section GraphFacts.

Variable call_gemini_detect_intents : string → list string → outcome (list string).
Variable call_gemini_rewrite_with_history : string → list string → outcome string.
Variable call_gemini_for_keywords : string → outcome (list string).
Variable call_gemini_for_final_synthesis :
  string → list fused → list string → nat → string → outcome string.
Variable general_search : string → nat → option (list hit).
Variable _perform_search :
  string → string → string * string → all_configs_t → option (list hit).
Variable datasources_config : option all_configs_t.
Variable vector_search : string → nat → list pyobj.

Local Notation "'invoke'" := (graph_invoke call_gemini_detect_intents
  call_gemini_rewrite_with_history call_gemini_for_keywords
  call_gemini_for_final_synthesis general_search _perform_search
  datasources_config vector_search).

Ltac run_cases H :=
  unfold perform, mbind, M_bind, mret, M_ret in H;
  repeat (case_match; simplify_eq/=).

Lemma execute_search_pool (st st' : AgentState) log :
  execute_search general_search _perform_search datasources_config
    vector_search st = (log, Ok st') →
  length (ks_results st') ≤ 60 ∧
  (vector_results st' = [] ∨
   vector_results st' = vector_search (effective_query st) 60) ∧
  (only_greeting (intents st) = false →
   log = [CallGeneralSearch (effective_query st) 50;
          CallFuzzySearch (keywords st) 50;
          CallVectorSearch (effective_query st) 60]).
Proof.
  intros H. unfold execute_search, ks_agent_run in H. run_cases H.
  - split_and!; [lia|by left|done].
  - split_and!; [|by right|done].
    rewrite length_fmap, length_take. lia.
Qed.

Lemma extract_keywords_and_rewrite_log (st st' : AgentState) log :
  extract_keywords_and_rewrite call_gemini_detect_intents
    call_gemini_rewrite_with_history call_gemini_for_keywords st = (log, Ok st') →
  only_greeting (intents st') = false →
  log = [CallDetectIntents (query st) (history st);
         CallRewrite (query st) (history st);
         CallKeywords (effective_query st');
         CallDetectIntents (effective_query st') (history st)].
Proof.
  intros H. unfold extract_keywords_and_rewrite in H. run_cases H; done.
Qed.

Lemma dicts_length l : length (dicts l) ≤ length l.
Proof.
  induction l as [|[res|] l IH]; simpl; [done|..]; unfold dicts in *; simpl; lia.
Qed.

Lemma graph_invoke_length (init fs : AgentState) (log : list call) :
  invoke init = (log, Ok fs) →
  length (all_results fs) ≤ 60 + length (vector_search (effective_query fs) 60).
Proof.
  unfold graph_invoke. intros H.
  apply M_bind_Ok in H as (l1 & prepared & l2 & Hprep & H & ->).
  apply M_bind_Ok in H as (l3 & searched & l4 & Hsearch & Hgen & ->).
  pose proof (execute_search_ok _ _ _ _ _ _ _ Hsearch) as (_ & He & _).
  pose proof (execute_search_pool _ _ _ Hsearch) as (Hks & Hvec & _).
  pose proof (generate_final_response_ok _ _ _ _ Hgen) as (Hall & _ & _ & He' & _).
  simpl in Hall, He'.
  destruct (fuse_results_dicts_only_aux searched) as (Hlen & _).
  change (all_sorted (ks_results searched) (vector_results searched))
    with (all_results (fuse_results searched)) in Hlen.
  rewrite Hall. etrans; [exact Hlen|].
  pose proof (dicts_length (ks_results searched)).
  pose proof (dicts_length (vector_results searched)).
  destruct Hvec as [Hv|Hv]; rewrite Hv in *; simpl in *; [lia|].
  rewrite He', He. lia.
Qed.

(** X22: a run of the graph that succeeds leaves at most 60 catalogue
    results and the hits of one vector search to the fusion, so the fused
    list it stores for the session has at most 60 records more than the
    vector search returned.  For a pure greeting the fused list is empty.
    Otherwise the run makes exactly eight calls, in this order: intents and
    rewrite of the query, keywords and intents of the rewritten query, one
    general search and one fuzzy search for 50 results each, one vector
    search for 60, and last the synthesis of the first 15 fused records,
    numbered from the initial start number. *)
Theorem graph_invoke_pool (init fs : AgentState) (log : list call) :
  invoke init = (log, Ok fs) →
  length (all_results fs) ≤ 60 + length (vector_search (effective_query fs) 60) ∧
  final_results fs = take 15 (all_results fs) ∧
  (only_greeting (intents fs) = true → all_results fs = []) ∧
  (only_greeting (intents fs) = false →
   log = [CallDetectIntents (query init) (history init);
          CallRewrite (query init) (history init);
          CallKeywords (effective_query fs);
          CallDetectIntents (effective_query fs) (history init);
          CallGeneralSearch (effective_query fs) 50;
          CallFuzzySearch (keywords fs) 50;
          CallVectorSearch (effective_query fs) 60;
          CallSynthesis (effective_query fs) (take 15 (all_results fs))
            (intents fs) (start_number init) (previous_text init)]).
Proof.
  intros Hrun. split; [exact (graph_invoke_length init fs log Hrun)|].
  unfold graph_invoke in Hrun.
  apply M_bind_Ok in Hrun as (l1 & prepared & l2 & Hprep & H & ->).
  apply M_bind_Ok in H as (l3 & searched & l4 & Hsearch & Hgen & ->).
  pose proof (extract_keywords_and_rewrite_ok _ _ _ _ _ _ Hprep) as (Hs1 & Hp1).
  pose proof (extract_keywords_and_rewrite_log _ _ _ Hprep) as Hlog1.
  pose proof (execute_search_ok _ _ _ _ _ _ _ Hsearch)
    as (Hi & He & Hs2 & Hp2 & Hgreet).
  pose proof (execute_search_pool _ _ _ Hsearch) as (_ & _ & Hlog).
  assert (keywords searched = keywords prepared) as Hkw.
  { unfold execute_search, ks_agent_run in Hsearch. run_cases Hsearch; done. }
  pose proof (generate_final_response_ok _ _ _ _ Hgen) as (Hall & Hfin & Hi' & He' & Hcall).
  assert (keywords fs = keywords searched) as Hkw'.
  { unfold generate_final_response in Hgen. run_cases Hgen; done. }
  simpl in Hall, Hfin, Hi', He', Hcall.
  split_and!.
  - by rewrite Hfin, Hall.
  - intros Hg. rewrite Hi', Hi in Hg. destruct (Hgreet Hg) as [Hk Hv].
    rewrite Hall. unfold all_sorted. by rewrite Hk, Hv.
  - intros Hg. rewrite Hi' in Hg. rewrite (Hcall Hg).
    rewrite Hi in Hg. rewrite (Hlog Hg), (Hlog1 Hg).
    rewrite Hall, Hkw', Hkw, Hi', Hi, He', He. simpl.
    rewrite Hs2, Hs1, Hp2, Hp1. reflexivity.
Qed.

End GraphFacts.

Lemma graph_invoke_pool_witness :
  ∃ log fs,
    graph_invoke stub_detect_intents stub_rewrite stub_keywords stub_synthesis
      stub_general_search stub_perform_search None (stub_vector_search 70)
      (initial_state empty_assistant "s" "rat") = (log, Ok fs) ∧
    length (all_results fs) ≤ 60 + 70 ∧
    last log
    = Some (CallSynthesis "rat" (take 15 (all_results fs)) [DATA_DISCOVERY] 1
              EmptyString) ∧
    length log = 8.
Proof.
  destruct (graph_invoke stub_detect_intents stub_rewrite stub_keywords
              stub_synthesis stub_general_search stub_perform_search None
              (stub_vector_search 70) (initial_state empty_assistant "s" "rat"))
    as [log [fs|msg]] eqn:Hrun; [|by vm_compute in Hrun].
  destruct (graph_invoke_pool stub_detect_intents stub_rewrite stub_keywords
              stub_synthesis stub_general_search stub_perform_search None
              (stub_vector_search 70) (initial_state empty_assistant "s" "rat")
              fs log Hrun) as (Hlen & _ & _ & Hlog).
  assert (intents fs = [DATA_DISCOVERY] ∧ effective_query fs = "rat") as [Hi He].
  { vm_compute in Hrun. by injection Hrun as <- <-. }
  exists log, fs. split; [done|]. split; [exact Hlen|].
  rewrite Hlog by (by rewrite Hi). rewrite Hi, He. split; reflexivity.
Defined.

(** ** The vector search *)

Section RetrieverFacts.

Variable is_enabled : bool.
Variable _embed : string → option (list float).
Variable find_neighbors : list float → nat → option (list neighbor).
Variable item_fields : string → gmap string string.

Local Notation "'search'" := (retriever_search is_enabled _embed find_neighbors item_fields).
Local Notation "'run'" := (vector_agent_run is_enabled _embed find_neighbors item_fields).
Local Notation "'item'" := (retrieved_item item_fields).

Lemma retriever_search_items (query : string) (top_k : nat) :
  length (search query top_k) ≤ or_20 top_k ∧
  Forall (λ res, ∃ vec neighbors nb,
            _embed query = Some vec ∧
            find_neighbors vec (num_neighbors top_k) = Some neighbors ∧
            nb ∈ neighbors ∧ res = item nb)
         (search query top_k).
Proof.
  unfold retriever_search.
  destruct (negb is_enabled || negb (PyStr.truthy query)); [simpl; split; [lia|done]|].
  destruct (_embed query) as [vec|] eqn:Evec; [|simpl; split; [lia|done]].
  destruct (find_neighbors vec (num_neighbors top_k)) as [neighbors|] eqn:Enb;
    [|simpl; split; [lia|done]].
  split; [rewrite length_take; lia|].
  apply Forall_forall. intros res Hres. apply subseteq_take in Hres.
  rewrite sort_reverse_perm in Hres.
  apply list_elem_of_fmap in Hres as (nb & -> & Hnb).
  exists vec, neighbors, nb. done.
Qed.

Lemma vector_agent_run_length (query : string) (want : nat) :
  length (run query want) ≤ 50.
Proof.
  unfold vector_agent_run. destruct (negb is_enabled); [simpl; lia|].
  rewrite length_fmap.
  destruct (retriever_search_items query (want `min` 50)) as [Hlen _].
  unfold or_20 in Hlen. destruct (want `min` 50) eqn:E; lia.
Qed.

(** X23: the vector agent returns at most 50 hits, and at most [want] for
    a positive [want]; it asks the index for between 1 and 100 neighbours.
    Every hit is the dictionary of a neighbour that the index returned for
    the embedded query: it carries the datapoint id under "id" and the
    negated distance as its similarity, and no "_id" or "_score".  With the
    retriever disabled, or for an empty query, nothing is returned. *)
Theorem vector_agent_run_hits (query : string) (want : nat) :
  length (run query want) ≤ 50 ∧
  (want ≠ 0 → length (run query want) ≤ want) ∧
  1 ≤ num_neighbors (want `min` 50) ≤ 100 ∧
  Forall (λ o, ∃ vec neighbors nb,
            _embed query = Some vec ∧
            find_neighbors vec (num_neighbors (want `min` 50)) = Some neighbors ∧
            nb ∈ neighbors ∧
            o = PDict (Hit (Some (nb_id nb)) None
                         (Some (similarity_of (nb_distance nb))) None
                         (item_fields (nb_id nb))))
         (run query want) ∧
  (is_enabled = false ∨ query = EmptyString → run query want = []).
Proof.
  split_and!.
  - apply vector_agent_run_length.
  - intros Hwant. unfold vector_agent_run. destruct (negb is_enabled); [simpl; lia|].
    rewrite length_fmap.
    destruct (retriever_search_items query (want `min` 50)) as [Hlen _].
    unfold or_20 in Hlen. destruct (want `min` 50) eqn:E; lia.
  - unfold num_neighbors. lia.
  - unfold num_neighbors. lia.
  - unfold vector_agent_run. destruct (negb is_enabled); [done|].
    destruct (retriever_search_items query (want `min` 50)) as [_ Hitems].
    apply Forall_fmap. eapply Forall_impl; [exact Hitems|].
    intros res (vec & neighbors & nb & ? & ? & ? & ->). simpl.
    exists vec, neighbors, nb. done.
  - intros [Hoff| ->]; unfold vector_agent_run, retriever_search.
    + by rewrite Hoff.
    + destruct is_enabled; done.
Qed.

Variable call_gemini_detect_intents : string → list string → outcome (list string).
Variable call_gemini_rewrite_with_history : string → list string → outcome string.
Variable call_gemini_for_keywords : string → outcome (list string).
Variable call_gemini_for_final_synthesis :
  string → list fused → list string → nat → string → outcome string.
Variable general_search : string → nat → option (list hit).
Variable _perform_search :
  string → string → string * string → all_configs_t → option (list hit).
Variable datasources_config : option all_configs_t.

(** X24: with this vector agent, a new query whose graph succeeds stores
    a fused list of at most 110 records, 60 from the catalogue and 50 from
    the index, on page 1 with page size 15: the session has at most eight
    pages of 15, and nothing is left from record 121 on. *)
Theorem stored_results_at_most_110 (self : assistant) (sid q : string)
    (reset : bool) (fs : AgentState) (log : list call) :
  let self2 := ensure_history (if reset then reset_session self sid else self) sid in
  let r := handle_chat call_gemini_detect_intents call_gemini_rewrite_with_history
             call_gemini_for_keywords call_gemini_for_final_synthesis
             general_search _perform_search datasources_config run
             self sid q reset in
  is_continuation q = false →
  graph_invoke call_gemini_detect_intents call_gemini_rewrite_with_history
    call_gemini_for_keywords call_gemini_for_final_synthesis
    general_search _perform_search datasources_config run
    (initial_state self2 sid q) = (log, Ok fs) →
  r.1.1 = final_response fs ∧ r.2 = log ∧
  ∃ mem, session_memory r.1.2 !! sid = Some mem ∧
         mem_all_results mem = all_results fs ∧
         length (mem_all_results mem) ≤ 110 ∧
         mem_page mem = 1 ∧ mem_page_size mem = 15 ∧
         drop (8 * 15) (mem_all_results mem) = [].
Proof.
  intros self2 r Hq Hrun. unfold r, handle_chat. fold self2.
  rewrite Hq. unfold new_query. rewrite Hrun. simpl.
  split; [done|]. split; [done|].
  eexists. rewrite lookup_insert_eq. split; [done|]. simpl.
  pose proof (graph_invoke_length _ _ _ _ _ _ _ _ _ _ _ Hrun) as Hlen.
  pose proof (vector_agent_run_length (effective_query fs) 60).
  assert (length (all_results fs) ≤ 110) by lia.
  split_and!; [done..|]. apply drop_ge. simpl. lia.
Qed.

End RetrieverFacts.

Lemma stored_results_at_most_110_witness :
  ∃ mem,
    session_memory
      (handle_chat stub_detect_intents stub_rewrite stub_keywords stub_synthesis
         stub_general_search stub_perform_search None
         (vector_agent_run true stub_embed (stub_find_neighbors 120) stub_item_fields)
         empty_assistant "s" "rat" false).1.2 !! "s" = Some mem ∧
    length (mem_all_results mem) ≤ 110 ∧
    drop 120 (mem_all_results mem) = [].
Proof.
  destruct (graph_invoke stub_detect_intents stub_rewrite stub_keywords
              stub_synthesis stub_general_search stub_perform_search None
              (vector_agent_run true stub_embed (stub_find_neighbors 120)
                 stub_item_fields)
              (initial_state (ensure_history empty_assistant "s") "s" "rat"))
    as [log [fs|msg]] eqn:Hrun; [|by vm_compute in Hrun].
  destruct (stored_results_at_most_110 true stub_embed (stub_find_neighbors 120)
              stub_item_fields stub_detect_intents stub_rewrite stub_keywords
              stub_synthesis stub_general_search stub_perform_search None
              empty_assistant "s" "rat" false fs log)
    as (_ & _ & mem & Hmem & _ & Hlen & _ & _ & Hdrop).
  - reflexivity.
  - exact Hrun.
  - exists mem. split_and!; [exact Hmem|exact Hlen|exact Hdrop].
Defined.
